(** * Block-based image scrambler: a shallow embedding of
      [block_image_encryption.py] and the properties of its two operations,
      [block_scramble] and [block_unscramble].

    Python integers are [Z]; Python lists are Rocq lists indexed with stdpp's
    lookup and insert, with Python's out-of-range behaviour written out; the
    ceiling of a float quotient is computed on integers, underflow to zero
    included; the [try]/[except] structure of both functions is an error
    monad.  PIL images
    are modelled through the four operations the script uses ([size], [crop],
    [paste], [Image.new]) acting on a pixel function. *)

From stdpp Require Import gmap strings.
From Stdlib Require Import ZArith Lia.
From stdpp Require Import base list numbers.

Local Open Scope Z_scope.

(** ** Outcomes of the two operations *)

(** Exceptions that reach the generic [except Exception] handler. *)
Inductive exn : Type :=
  | ZeroDivisionError
  | IndexError
  | ValueError
  | KeyError
  | OSError.

(** One constructor per way the script reports a failure and returns without
    saving anything. *)
Inductive error : Type :=
  | InputNotFound      (* except FileNotFoundError *)
  | KeyNotFound        (* os.path.exists(key_path) is false *)
  | KeyDecodeError     (* except json.JSONDecodeError *)
  | KeySizeMismatch    (* len(permutation) != len(scrambled_blocks) *)
  | Unexpected (e : exn). (* except Exception as e *)

Inductive result (A : Type) : Type :=
  | Ok (a : A)
  | Err (e : error).
Arguments Ok {A} a.
Arguments Err {A} e.

#[global] Instance result_ret : MRet result := λ A a, Ok a.
#[global] Instance result_bind : MBind result := λ A B f m,
  match m with
  | Ok a => f a
  | Err e => Err e
  end.

Definition raise {A} (e : exn) : result A := Err (Unexpected e).

Definition is_ok {A} (r : result A) : bool :=
  match r with Ok _ => true | Err _ => false end.

(** ** Python built-ins used by the script *)

Module Py.

Definition len {A} (l : list A) : Z := Z.of_nat (length l).

(** [range(n)]: empty when [n <= 0]. *)
Definition range (n : Z) : list Z := seqZ 0 n.

(** Position designated by index [i] in a list of length [n]: negative
    indices count from the end, anything outside [-n, n) is an IndexError. *)
Definition index (n i : Z) : option nat :=
  if (0 <=? i) && (i <? n) then Some (Z.to_nat i)
  else if (- n <=? i) && (i <? 0) then Some (Z.to_nat (n + i))
  else None.

(** [l[i]] *)
Definition get {A} (l : list A) (i : Z) : result A :=
  match index (len l) i with
  | Some k =>
      match l !! k with
      | Some x => Ok x
      | None => raise IndexError
      end
  | None => raise IndexError
  end.

(** [l[i] = x] *)
Definition set {A} (l : list A) (i : Z) (x : A) : result (list A) :=
  match index (len l) i with
  | Some k => Ok (<[k:=x]> l)
  | None => raise IndexError
  end.

(** [math.ceil(a / b)].  The script divides in floating point: [a / b] is
    the double nearest to the quotient (ties to even).  When the quotient is
    at most 2^-1075 in magnitude, that is when [|a| * 2^1075 <= |b|], the
    double is zero and so is its ceiling.  Otherwise, [a] being a dimension
    of a PIL image (below 2^31, anything below 2^53 would do), the double
    lies strictly between the same two integers as the quotient, or is the
    quotient itself, and its ceiling is the integer ceiling.  Division by
    zero raises. *)
Definition ceil_div (a b : Z) : result Z :=
  if b =? 0 then raise ZeroDivisionError
  else if Z.abs a <=? Z.shiftr (Z.abs b) 1075 then Ok 0
  else Ok (- ((- a) / b)).

End Py.

(** ** The random module *)

Module Random.

(** The generator's state is the stream of raw draws still to come. *)
Definition state : Type := list Z.

(** [randbelow(n)]: some value in [0, n), here the next draw reduced
    modulo [n]. *)
Definition randbelow (n : Z) (s : state) : Z * state :=
  (hd 0 s `mod` n, tl s).

(** [x[i], x[j] = x[j], x[i]] *)
Definition swap {A} (x : list A) (i j : nat) : list A :=
  match x !! i, x !! j with
  | Some a, Some b => <[j:=a]> (<[i:=b]> x)
  | _, _ => x
  end.

(** The body of [random.shuffle]:
      for i in reversed(range(1, len(x))):
          j = randbelow(i + 1)
          x[i], x[j] = x[j], x[i] *)
Fixpoint shuffle_loop {A} (idx : list nat) (x : list A) (s : state)
  : list A * state :=
  match idx with
  | [] => (x, s)
  | i :: idx' =>
      let '(j, s') := randbelow (Z.of_nat i + 1) s in
      shuffle_loop idx' (swap x i (Z.to_nat j)) s'
  end.

Definition shuffle {A} (x : list A) (s : state) : list A * state :=
  shuffle_loop (reverse (seq 1 (length x - 1)%nat)) x s.

End Random.

(** ** PIL images *)

Definition pixel : Type := Z * Z * Z.
Definition black : pixel := (0, 0, 0).

(** A box is [(left, top, right, bottom)]. *)
Definition box : Type := Z * Z * Z * Z.

Record image : Type := Image {
  im_width : nat;
  im_height : nat;
  getpixel : Z → Z → pixel
}.

Definition size (im : image) : Z * Z :=
  (Z.of_nat (im_width im), Z.of_nat (im_height im)).

Definition in_bounds (im : image) (x y : Z) : bool :=
  (0 <=? x) && (x <? (size im).1) && (0 <=? y) && (y <? (size im).2).

(** [Image.new('RGB', (w, h))]: every pixel black. *)
Definition Image_new (wh : Z * Z) : image :=
  Image (Z.to_nat wh.1) (Z.to_nat wh.2) (λ _ _, black).

(** Reading a source pixel for [crop]: outside the source the region is
    filled with black. *)
Definition pixel_at (im : image) (x y : Z) : pixel :=
  if in_bounds im x y then getpixel im x y else black.

(** [im.crop((left, top, right, bottom))] *)
Definition crop (im : image) (b : box) : image :=
  let '(x0, y0, x1, y1) := b in
  Image (Z.to_nat (x1 - x0)) (Z.to_nat (y1 - y0))
        (λ x y, pixel_at im (x0 + x) (y0 + y)).

(** Rectangle covered by [src] when pasted with its corner at [(left, top)]. *)
Definition covers (src : image) (pos : Z * Z) (x y : Z) : bool :=
  (pos.1 <=? x) && (x <? pos.1 + (size src).1) &&
  (pos.2 <=? y) && (y <? pos.2 + (size src).2).

(** [dst.paste(src, (left, top))]: the region is as large as [src]; what
    falls outside [dst] is clipped, which the pixel function leaves implicit
    because only pixels inside [dst] are ever observed. *)
Definition paste (dst src : image) (pos : Z * Z) : image :=
  Image (im_width dst) (im_height dst)
        (λ x y, if covers src pos x y
                then getpixel src (x - pos.1) (y - pos.2)
                else getpixel dst x y).

(** Two buffers are equal pixel for pixel. *)
Definition img_eq (a b : image) : Prop :=
  size a = size b ∧
  ∀ x y, in_bounds a x y = true → getpixel a x y = getpixel b x y.

(** The pixel rows of an image, top to bottom, and an image from its rows. *)
Definition to_rows (im : image) : list (list pixel) :=
  (λ y, (λ x, getpixel im x y) <$> Py.range (size im).1) <$> Py.range (size im).2.

Definition of_rows (w h : nat) (rows : list (list pixel)) : image :=
  Image w h (λ x y, nth (Z.to_nat x) (nth (Z.to_nat y) rows []) black).

(** ** The grid *)

(** The four coordinates computed in the body of the extraction loops, for
    row [i] and column [j]. *)
Definition block_box (width height block_size i j : Z) : box :=
  let left := j * block_size in
  let top := i * block_size in
  let right := Z.min ((j + 1) * block_size) width in
  let bottom := Z.min ((i + 1) * block_size) height in
  (left, top, right, bottom).

(** Iteration space of [for i in range(rows): for j in range(cols):]. *)
Definition grid_positions (rows cols : Z) : list (Z * Z) :=
  i ← Py.range rows; j ← Py.range cols; [(i, j)].

(** Lines 26-37 of [block_scramble]. *)
Definition original_blocks (img : image) (block_size cols rows : Z) : list image :=
  let '(width, height) := size img in
  i ← Py.range rows; j ← Py.range cols;
  [crop img (block_box width height block_size i j)].

(** Lines 114-123 of [block_unscramble]. *)
Definition scrambled_blocks (scrambled_img : image) (block_size cols rows : Z)
  : list image :=
  let '(width, height) := size scrambled_img in
  i ← Py.range rows; j ← Py.range cols;
  [crop scrambled_img (block_box width height block_size i j)].

(** ** [block_scramble] *)

(** [Image.open(path).convert('RGB')]: the file is there or it is not. *)
Definition open_image (file : option image) : result image :=
  match file with
  | Some img => Ok img
  | None => Err InputNotFound
  end.

(** Body of the paste loop, lines 51-63, at grid position [(i, j)]. *)
Definition scramble_step (blocks : list image) (permutation : list Z)
    (block_size cols : Z) (acc : result image) (ij : Z * Z) : result image :=
  scrambled_img ← acc;
  let '(i, j) := ij in
  let current_grid_index := i * cols + j in
  if current_grid_index <? Py.len permutation then
    (original_block_source_index ← Py.get permutation current_grid_index;
     block_to_paste ← Py.get blocks original_block_source_index;
     let left := j * block_size in
     let top := i * block_size in
     mret (paste scrambled_img block_to_paste (left, top)))
  else mret scrambled_img.

(** [block_scramble] with the shuffle of line 42 taken as a parameter [gen],
    applied to [list(range(len(original_blocks)))].  [Ok (img, key)] stands
    for the two files written at the end; any [Err] means nothing was
    saved. *)
Definition scramble_with (gen : list Z → list Z) (input : option image)
    (block_size : Z) : result (image * list Z) :=
  img ← open_image input;
  let '(width, height) := size img in
  cols ← Py.ceil_div width block_size;
  rows ← Py.ceil_div height block_size;
  let blocks := original_blocks img block_size cols rows in
  let permutation := gen (Py.range (Py.len blocks)) in
  let scrambled_img := Image_new (width, height) in
  scrambled_img ←
    foldl (scramble_step blocks permutation block_size cols)
          (Ok scrambled_img) (grid_positions rows cols);
  mret (scrambled_img, permutation).

Definition block_scramble (input : option image) (block_size : Z)
    (s : Random.state) : result (image * list Z) :=
  scramble_with (λ x, (Random.shuffle x s).1) input block_size.

(** ** [block_unscramble] *)

(** What is found at [key_path]: no file, a file that is not JSON, or a
    JSON array of integers.  (Other JSON values end in the generic handler
    and are left out.) *)
Inductive key_file : Type :=
  | KeyMissing
  | KeyMalformed
  | KeyJson (permutation : list Z).

Definition load_key (key : key_file) : result (list Z) :=
  match key with
  | KeyMissing => Err KeyNotFound
  | KeyMalformed => Err KeyDecodeError
  | KeyJson permutation => Ok permutation
  end.

(** Body of the reconstruction loop, lines 138-139, at index [k]. *)
Definition reconstruct_step (permutation : list Z) (blocks : list image)
    (acc : result (list (option image))) (k : Z)
  : result (list (option image)) :=
  unscrambled_blocks_ordered ← acc;
  original_idx ← Py.get permutation k;
  blk ← Py.get blocks k;
  Py.set unscrambled_blocks_ordered original_idx (Some blk).

(** Lines 132-139. *)
Definition reconstruct (permutation : list Z) (blocks : list image)
  : result (list (option image)) :=
  foldl (reconstruct_step permutation blocks)
        (Ok (replicate (length blocks) None))
        (Py.range (Py.len permutation)).

(** Body of the final paste loop, lines 150-155.  Pasting [None] raises
    ValueError inside PIL. *)
Definition unscramble_step (ordered : list (option image)) (block_size : Z)
    (acc : result (image * Z)) (ij : Z * Z) : result (image * Z) :=
  '(unscrambled_img, block_idx_counter) ← acc;
  let '(i, j) := ij in
  if block_idx_counter <? Py.len ordered then
    (let left := j * block_size in
     let top := i * block_size in
     block_to_paste ← Py.get ordered block_idx_counter;
     match block_to_paste with
     | Some blk =>
         mret (paste unscrambled_img blk (left, top), block_idx_counter + 1)
     | None => raise ValueError
     end)
  else mret (unscrambled_img, block_idx_counter).

(** Lines 141-158: composite the reordered blocks and save. *)
Definition unscramble_composite (wh : Z * Z) (block_size cols rows : Z)
    (ordered : list (option image)) : result image :=
  '(unscrambled_img, _) ←
    foldl (unscramble_step ordered block_size)
          (Ok (Image_new wh, 0)) (grid_positions rows cols);
  mret unscrambled_img.

Definition block_unscramble (scrambled : option image) (key : key_file)
    (block_size : Z) : result image :=
  permutation ← load_key key;
  scrambled_img ← open_image scrambled;
  let '(width, height) := size scrambled_img in
  cols ← Py.ceil_div width block_size;
  rows ← Py.ceil_div height block_size;
  let blocks := scrambled_blocks scrambled_img block_size cols rows in
  if negb (Py.len permutation =? Py.len blocks) then Err KeySizeMismatch
  else
    unscrambled_blocks_ordered ← reconstruct permutation blocks;
    unscramble_composite (width, height) block_size cols rows
                         unscrambled_blocks_ordered.

(** Scramble, then unscramble what was saved with the key that was saved. *)
Definition roundtrip (img : image) (block_size : Z) (s : Random.state)
  : result image :=
  '(scrambled_img, permutation) ← block_scramble (Some img) block_size s;
  block_unscramble (Some scrambled_img) (KeyJson permutation) block_size.

(** ** The block-size prompt of [main] *)

(** One answer typed at the prompt, after [strip()]. *)
Inductive answer : Type :=
  | Blank
  | NotANumber
  | Number (n : Z).

(** Lines 187-201: [None] when the answers run out with the loop still
    asking. *)
Fixpoint read_block_size (block_size : Z) (answers : list answer) : option Z :=
  match answers with
  | [] => None
  | Blank :: _ => Some block_size
  | NotANumber :: rest => read_block_size block_size rest
  | Number temp_block_size :: rest =>
      if temp_block_size <=? 0 then read_block_size block_size rest
      else Some temp_block_size
  end.


(** ** Running the model *)

Definition rows_of {A} (f : A → image) (r : result A)
  : result (list (list pixel)) :=
  a ← r; mret (to_rows (f a)).

Definition strip3 : image :=
  of_rows 3 1 [[(1, 1, 1); (2, 2, 2); (3, 3, 3)]].

Definition square4 : image :=
  of_rows 4 4 [[(1, 0, 0); (2, 0, 0); (3, 0, 0); (4, 0, 0)];
               [(5, 0, 0); (6, 0, 0); (7, 0, 0); (8, 0, 0)];
               [(9, 0, 0); (10, 0, 0); (11, 0, 0); (12, 0, 0)];
               [(13, 0, 0); (14, 0, 0); (15, 0, 0); (16, 0, 0)]].

(** ** Vocabulary of the statements *)

(** Rectangle of the block with linear grid index [g]: row [g / cols],
    column [g % cols]. *)
Definition block_rect (width height block_size cols g : Z) : box :=
  block_box width height block_size (g / cols) (g `mod` cols).

Definition in_box (b : box) (x y : Z) : bool :=
  let '(x0, y0, x1, y1) := b in
  (x0 <=? x) && (x <? x1) && (y0 <=? y) && (y <? y1).

Definition box_width (b : box) : Z := let '(x0, _, x1, _) := b in x1 - x0.
Definition box_height (b : box) : Z := let '(_, y0, _, y1) := b in y1 - y0.
Definition box_corner (b : box) : Z * Z := let '(x0, y0, _, _) := b in (x0, y0).

(** Linear grid index of the block that holds pixel [(x, y)]. *)
Definition block_of (block_size cols x y : Z) : Z :=
  y / block_size * cols + x / block_size.

(** The entries of a key for these blocks are valid indices. *)
Definition key_fits {A} (permutation : list Z) (blocks : list A) : Prop :=
  length permutation = length blocks ∧
  ∀ k, k ∈ permutation → 0 ≤ k < Py.len blocks.

(** What slot [m] of [unscrambled_blocks_ordered] holds once the first [t]
    entries of the key have been processed: the block of the last [k < t]
    with [permutation[k] = m], or [None] when there is no such [k]. *)
Definition slot_after (permutation : list Z) (blocks : list image) (t m : nat)
    (slot : option image) : Prop :=
  match slot with
  | None => ∀ k, (k < t)%nat → permutation !! k ≠ Some (Z.of_nat m)
  | Some blk =>
      ∃ k, (k < t)%nat ∧ permutation !! k = Some (Z.of_nat m) ∧
           blocks !! k = Some blk ∧
           ∀ k', (k < k' < t)%nat → permutation !! k' ≠ Some (Z.of_nat m)
  end.

(** Two rectangles of the same width and height. *)
Definition same_shape (a b : box) : Prop :=
  box_width a = box_width b ∧ box_height a = box_height b.

(** A key that only moves blocks onto rectangles of their own shape. *)
Definition shape_preserving (width height block_size cols rows : Z)
    (permutation : list Z) : Prop :=
  ∀ g p, 0 ≤ g < cols * rows → permutation !! Z.to_nat g = Some p →
    same_shape (block_rect width height block_size cols p)
               (block_rect width height block_size cols g).

(** A sequence of pastes onto one destination, first to last. *)
Definition paste_all (dst : image) (ps : list (image * (Z * Z))) : image :=
  foldl (λ d p, paste d p.1 p.2) dst ps.

(** ** Further inputs and vocabulary *)

(** A 5 x 1 buffer: with block size 2, blocks of widths 2, 2 and 1. *)
Definition strip5 : image :=
  of_rows 5 1 [[(1, 1, 1); (2, 2, 2); (3, 3, 3); (4, 4, 4); (5, 5, 5)]].

(** The index a negative key entry stands for in a list of [n] slots. *)
Definition wrap_entry (n e : Z) : Z := if e <? 0 then n + e else e.

(** An answer the block-size prompt turns down and asks again. *)
Definition rejected (a : answer) : Prop :=
  match a with
  | Blank => False
  | NotANumber => True
  | Number n => n ≤ 0
  end.

(** ** Files and the interactive loop *)

(** What a path of the file system holds: an image PIL can open, a JSON
    array of integers, or text that is not JSON. *)
Inductive file : Type :=
  | ImageFile (img : image)
  | KeyFile (permutation : list Z)
  | TextFile.

(** What an operation prints before it returns. *)
Inductive report : Type :=
  | Saved              (* the "... saved to" messages *)
  | Failed (e : error) (* one of the messages of the [except] branches *)
  | ImageOnly (e : error) (* "Scrambled image saved to", then the message
                             of an [except] branch: the key was not written *)
  | NotAnImage         (* [Image.open] cannot identify the file (generic handler) *)
  | UnreadableKey.     (* [json.load] of an image file: JSONDecodeError or a
                          decoding error, by platform *)

(** How opening a path for writing ends: [open(key_output_path, 'w')] at
    line 72, and the [open(filename, "w+b")] inside PIL's [save]. *)
Inductive opening : Type :=
  | Opens
  | NoDirectory   (* FileNotFoundError: the directory of the path is missing *)
  | Refused.      (* another OSError: no permission, a directory at the path *)

(** Where an [img.save(path)] that raises does so; the extension of the
    path decides. *)
Inductive save_failure : Type :=
  | UnknownExtension  (* ValueError: the extension names no format; the
                         file is not opened *)
  | NoWriter          (* KeyError: a format PIL reads but does not write;
                         the file is not opened *)
  | InEncoder.        (* OSError from the writer of the format, which
                         cannot hold the image; the file is open by then *)

(** What the platform decides about writes.  [open_for_writing path]: how
    opening [path] for writing ends.  [save_failure_at path]: where an
    [img.save(path)] that raises does so.  [left_by_encoder path before]:
    what [path] holds once the writer has raised, [before] being what it
    held; PIL has truncated the file by then and, by version, removes a file
    it created. *)
Record platform : Type := Platform {
  open_for_writing : string → opening;
  save_failure_at : string → save_failure;
  left_by_encoder : string → option file → option file
}.

(** A platform on which every path can be opened for writing and [save]
    only ever raises on the extension. *)
Definition working : platform :=
  Platform (λ _, Opens) (λ _, UnknownExtension) (λ _ before, before).

(** Position of the program in [main]: the prompt it is waiting at, with
    the answers of the current turn. *)
Inductive prompt : Type :=
  | AskChoice
  | AskInputFile (choice : string)
  | AskOutputFile (choice input_file : string)
  | AskBlockSize (choice input_file output_file : string)
  | AskKeyFile (input_file output_file : string) (block_size : Z)
  | Stopped.

Record shell : Type := Shell {
  disk : gmap string file;
  generator : Random.state;
  waiting : prompt;
  printed : list report
}.

(** The state of the random generator after [block_scramble] returns: the
    shuffle is the only consumer, and it is reached only when the image
    loads and the block size is not zero. *)
Definition generator_after (input : option image) (block_size : Z)
    (s : Random.state) : Random.state :=
  match
    (img ← open_image input;
     cols ← Py.ceil_div (size img).1 block_size;
     rows ← Py.ceil_div (size img).2 block_size;
     mret (Random.shuffle
             (Py.range (Py.len (original_blocks img block_size cols rows))) s).2)
  with
  | Ok s' => s'
  | Err _ => s
  end.

Section Shell.

(** Library functions taken as given: [str.strip], [str.upper], [int] on a
    stripped line ([None] for ValueError), and what
    [Image.open(path).convert('RGB')] reads back after [img.save(path)]
    has written the file ([None] when [save] raises instead, on the
    extension or in the encoder; the image itself for a lossless format). *)
Variable strip : string → string.
Variable upper : string → string.
Variable int : string → option Z.
Variable saved_as : string → image → option image.

(** [img.save(path)]: the files afterwards, and the error reported when it
    raises.  PIL looks up the format of the extension and its writer, then
    opens the file, then runs the writer.  The handler of FileNotFoundError
    is the one that reports a missing input. *)
Definition save (io : platform) (fs : gmap string file) (path : string)
    (img : image) : gmap string file * option error :=
  match saved_as path img with
  | Some stored =>
      match open_for_writing io path with
      | Opens => (<[path:=ImageFile stored]> fs, None)
      | NoDirectory => (fs, Some InputNotFound)
      | Refused => (fs, Some (Unexpected OSError))
      end
  | None =>
      match save_failure_at io path with
      | UnknownExtension => (fs, Some (Unexpected ValueError))
      | NoWriter => (fs, Some (Unexpected KeyError))
      | InEncoder =>
          match open_for_writing io path with
          | Opens =>
              (partial_alter (left_by_encoder io path) path fs,
               Some (Unexpected OSError))
          | NoDirectory => (fs, Some InputNotFound)
          | Refused => (fs, Some (Unexpected OSError))
          end
      end
  end.

(** [block_scramble(image_path, output_path, block_size)] on the file
    system: lines 17-79.  The image is saved at line 66, before the key
    file is opened at line 72: when that fails the image stays. *)
Definition block_scramble_on (io : platform) (fs : gmap string file)
    (image_path output_path : string) (block_size : Z) (s : Random.state)
  : gmap string file * report :=
  match fs !! image_path with
  | None => (fs, Failed InputNotFound)
  | Some (ImageFile img) =>
      match block_scramble (Some img) block_size s with
      | Ok (scrambled_img, permutation) =>
          match save io fs output_path scrambled_img with
          | (fs, None) =>
              let key_output_path := output_path +:+ ".key.json" in
              match open_for_writing io key_output_path with
              | Opens => (<[key_output_path:=KeyFile permutation]> fs, Saved)
              | NoDirectory => (fs, ImageOnly InputNotFound)
              | Refused => (fs, ImageOnly (Unexpected OSError))
              end
          | (fs, Some e) => (fs, Failed e)
          end
      | Err e => (fs, Failed e)
      end
  | Some _ => (fs, NotAnImage)
  end.

(** [block_unscramble(scrambled_path, output_path, block_size, key_path)]
    on the file system: lines 91-167.  [not key_path] holds for [None] and
    for the empty string. *)
Definition block_unscramble_on (io : platform) (fs : gmap string file)
    (scrambled_path output_path : string) (block_size : Z)
    (key_path : option string) : gmap string file * report :=
  let key_path :=
    match key_path with
    | Some p => if decide (p = "") then scrambled_path +:+ ".key.json" else p
    | None => scrambled_path +:+ ".key.json"
    end in
  match fs !! key_path with
  | None => (fs, Failed KeyNotFound)
  | Some TextFile => (fs, Failed KeyDecodeError)
  | Some (ImageFile _) => (fs, UnreadableKey)
  | Some (KeyFile permutation) =>
      match fs !! scrambled_path with
      | None => (fs, Failed InputNotFound)
      | Some (ImageFile scrambled_img) =>
          match block_unscramble (Some scrambled_img) (KeyJson permutation)
                                 block_size with
          | Ok unscrambled_img =>
              match save io fs output_path unscrambled_img with
              | (fs, None) => (fs, Saved)
              | (fs, Some e) => (fs, Failed e)
              end
          | Err e => (fs, Failed e)
          end
      | Some _ => (fs, NotAnImage)
      end
  end.

(** The two operations on the [working] platform. *)
Definition block_scramble_files : gmap string file → string → string → Z →
    Random.state → gmap string file * report :=
  block_scramble_on working.

Definition block_unscramble_files : gmap string file → string → string → Z →
    option string → gmap string file * report :=
  block_unscramble_on working.

(** One answer at the block-size prompt, lines 190-201. *)
Definition classify (line : string) : answer :=
  let block_size_input := strip line in
  if decide (block_size_input = "") then Blank
  else match int block_size_input with
       | Some temp_block_size => Number temp_block_size
       | None => NotANumber
       end.

(** What [main] does with the next line typed, lines 172-212. *)
Definition main_step_on (io : platform) (σ : shell) (line : string) : shell :=
  match waiting σ with
  | AskChoice =>
      let choice := upper (strip line) in
      if decide (choice = "Q") then
        Shell (disk σ) (generator σ) Stopped (printed σ)
      else if decide (choice = "E" ∨ choice = "D") then
        Shell (disk σ) (generator σ) (AskInputFile choice) (printed σ)
      else σ
  | AskInputFile choice =>
      Shell (disk σ) (generator σ) (AskOutputFile choice (strip line)) (printed σ)
  | AskOutputFile choice input_file =>
      Shell (disk σ) (generator σ)
            (AskBlockSize choice input_file (strip line)) (printed σ)
  | AskBlockSize choice input_file output_file =>
      match read_block_size 32 [classify line] with
      | None => σ
      | Some block_size =>
          if decide (choice = "E") then
            let '(fs, r) :=
              block_scramble_on io (disk σ) input_file output_file
                                block_size (generator σ) in
            let input :=
              match disk σ !! input_file with
              | Some (ImageFile img) => Some img
              | _ => None
              end in
            Shell fs (generator_after input block_size (generator σ))
                  AskChoice (printed σ ++ [r])
          else if decide (choice = "D") then
            Shell (disk σ) (generator σ)
                  (AskKeyFile input_file output_file block_size) (printed σ)
          else Shell (disk σ) (generator σ) AskChoice (printed σ)
      end
  | AskKeyFile input_file output_file block_size =>
      let key_file := strip line in
      let key_file :=
        if decide (key_file = "") then input_file +:+ ".key.json"
        else key_file in
      let '(fs, r) :=
        block_unscramble_on io (disk σ) input_file output_file block_size
                            (Some key_file) in
      Shell fs (generator σ) AskChoice (printed σ ++ [r])
  | Stopped => σ
  end.


(** [main] on the [working] platform. *)
Definition main_step : shell → string → shell := main_step_on working.

Definition main (fs : gmap string file) (s : Random.state)
    (lines : list string) : shell :=
  foldl main_step (Shell fs s AskChoice []) lines.




End Shell.

(** The path [block_unscramble] reads the key from: lines 93-94. *)
Definition effective_key_path (scrambled_path : string)
    (key_path : option string) : string :=
  match key_path with
  | Some p => if decide (p = "") then scrambled_path +:+ ".key.json" else p
  | None => scrambled_path +:+ ".key.json"
  end.

(** * Properties *)

(** ** The model on concrete inputs *)

Example strip3_shuffle : (Random.shuffle (Py.range 2) [0]).1 = [1; 0].
Proof. reflexivity. Qed.

Example square4_shuffle :
  (Random.shuffle (Py.range 4) [1; 0; 0]).1 = [3; 2; 0; 1].
Proof. reflexivity. Qed.

Example square4_scrambled :
  rows_of fst (block_scramble (Some square4) 2 [1; 0; 0]) =
  Ok [[(11, 0, 0); (12, 0, 0); (9, 0, 0); (10, 0, 0)];
      [(15, 0, 0); (16, 0, 0); (13, 0, 0); (14, 0, 0)];
      [(1, 0, 0); (2, 0, 0); (3, 0, 0); (4, 0, 0)];
      [(5, 0, 0); (6, 0, 0); (7, 0, 0); (8, 0, 0)]].
Proof. vm_compute. reflexivity. Qed.

Example square4_roundtrip :
  rows_of id (roundtrip square4 2 [1; 0; 0]) = Ok (to_rows square4).
Proof. vm_compute. reflexivity. Qed.

(** A 65 x 65 buffer with block size 32: a 3 x 3 grid whose last column is
    one pixel wide and whose last row is one pixel high. *)
Example grid_65_by_32 :
  Py.ceil_div 65 32 = Ok 3 ∧
  Py.len (original_blocks (Image_new (65, 65)) 32 3 3) = 9 ∧
  block_rect 65 65 32 3 2 = (64, 0, 65, 32) ∧
  block_rect 65 65 32 3 6 = (0, 64, 32, 65) ∧
  block_rect 65 65 32 3 8 = (64, 64, 65, 65).
Proof. repeat split; reflexivity. Qed.

(** ** Python lists and ranges *)

Lemma range_length n : length (Py.range n) = Z.to_nat n.
Proof. apply length_seqZ. Qed.

Lemma range_lookup n g :
  0 ≤ g < n → Py.range n !! Z.to_nat g = Some g.
Proof.
  intros Hg. unfold Py.range. rewrite lookup_seqZ_lt by lia. f_equal. lia.
Qed.

Lemma range_lookup_Some n k g :
  Py.range n !! k = Some g → g = Z.of_nat k ∧ 0 ≤ g < n.
Proof. unfold Py.range. rewrite lookup_seqZ. lia. Qed.

Lemma range_snoc k : Py.range (Z.of_nat (S k)) = Py.range (Z.of_nat k) ++ [Z.of_nat k].
Proof. unfold Py.range. by rewrite seqZ_S. Qed.

Lemma index_nonneg n i : 0 ≤ i < n → Py.index n i = Some (Z.to_nat i).
Proof.
  intros Hi. unfold Py.index.
  destruct (0 <=? i) eqn:E1; destruct (i <? n) eqn:E2; simpl; try done; lia.
Qed.

Lemma get_lookup {A} (l : list A) i x :
  0 ≤ i → l !! Z.to_nat i = Some x → Py.get l i = Ok x.
Proof.
  intros Hi Hx. unfold Py.get.
  assert (Z.to_nat i < length l)%nat by (by eapply lookup_lt_Some).
  rewrite index_nonneg by (unfold Py.len; lia). by rewrite Hx.
Qed.

Lemma set_insert {A} (l : list A) i x :
  0 ≤ i < Py.len l → Py.set l i x = Ok (<[Z.to_nat i:=x]> l).
Proof. intros Hi. unfold Py.set. by rewrite index_nonneg. Qed.

(** The three cases of [Py.ceil_div]. *)
Lemma ceil_div_cases a b :
  b ≠ 0 →
  (Z.abs a ≤ Z.abs b / 2 ^ 1075 ∧ Py.ceil_div a b = Ok 0) ∨
  (Z.abs b / 2 ^ 1075 < Z.abs a ∧ Py.ceil_div a b = Ok (- ((- a) / b))).
Proof.
  intros Hb. unfold Py.ceil_div. destruct (b =? 0) eqn:E; [lia|].
  rewrite Z.shiftr_div_pow2 by done.
  destruct (Z.leb_spec (Z.abs a) (Z.abs b / 2 ^ 1075)); [by left|by right].
Qed.


Lemma underflow_threshold b : 0 < b → 0 ≤ b / 2 ^ 1075 < b.
Proof.
  intros Hb. assert (1 < 2 ^ 1075) as HT by done.
  remember (2 ^ 1075) as T eqn:ET. clear ET. split.
  - apply Z.div_pos; lia.
  - apply Z.div_lt; lia.
Qed.

(** Below 2^1075 the block size cannot make a non-zero quotient underflow:
    the result is the integer ceiling. *)
Lemma ceil_div_spec a b :
  0 < b → b < 2 ^ 1075 →
  ∃ c, Py.ceil_div a b = Ok c ∧ (c - 1) * b < a ≤ c * b.
Proof.
  intros Hb Hsmall.
  assert (Z.abs b / 2 ^ 1075 = 0) as Hz.
  { apply Z.div_small. rewrite Z.abs_eq by lia. lia. }
  destruct (ceil_div_cases a b ltac:(lia)) as [[Hu ->]|[Hu ->]];
    rewrite Hz in Hu.
  - exists 0. split; [done|]. lia.
  - exists (- ((- a) / b)). split; [done|].
    pose proof (Z.div_mod (- a) b ltac:(lia)) as Hdm.
    pose proof (Z.mod_pos_bound (- a) b Hb) as Hm. nia.
Qed.

Lemma ceil_div_nonneg a b c :
  0 < b → 0 ≤ a → Py.ceil_div a b = Ok c → 0 ≤ c.
Proof.
  intros Hb Ha.
  destruct (ceil_div_cases a b ltac:(lia)) as [[_ ->]|[_ ->]]; intros [= <-];
    [done|].
  pose proof (Z.div_mod (- a) b ltac:(lia)) as Hdm.
  pose proof (Z.mod_pos_bound (- a) b Hb) as Hm. nia.
Qed.

Lemma ceil_div_neg a b :
  b < 0 → 0 ≤ a → ∃ c, Py.ceil_div a b = Ok c ∧ c ≤ 0.
Proof.
  intros Hb Ha.
  destruct (ceil_div_cases a b ltac:(lia)) as [[_ ->]|[_ ->]];
    eexists; (split; [done|]); [done|].
  pose proof (Z.div_mod (- a) b ltac:(lia)) as Hdm.
  pose proof (Z.mod_neg_bound (- a) b Hb) as Hm. nia.
Qed.

(** ** Nested loops over the grid *)

Lemma row_major_div_mod cols i j :
  0 ≤ j < cols → (i * cols + j) / cols = i ∧ (i * cols + j) `mod` cols = j.
Proof.
  intros Hj. split.
  - symmetry. apply (Z.div_unique _ _ _ j); lia.
  - symmetry. apply (Z.mod_unique _ _ i); lia.
Qed.

Lemma div_mod_row_major cols g :
  0 < cols → (g / cols) * cols + g `mod` cols = g.
Proof. intros Hc. pose proof (Z.div_mod g cols ltac:(lia)). lia. Qed.

(** The two nested [for] loops visit the grid in row-major order: position
    [g] of the flattened iteration is row [g / cols], column [g % cols]. *)
Lemma nested_range {A} (f : Z → Z → A) rows cols :
  0 < cols →
  (i ← Py.range rows; j ← Py.range cols; [f i j]) =
  (λ g, f (g / cols) (g `mod` cols)) <$> Py.range (rows * cols).
Proof.
  intros Hc. destruct (Z_le_gt_dec rows 0) as [Hr|Hr].
  { unfold Py.range. rewrite (seqZ_nil _ rows), (seqZ_nil _ (rows * cols)) by nia.
    done. }
  rewrite <- (Z2Nat.id rows) by lia.
  induction (Z.to_nat rows) as [|r IH]; [done|].
  rewrite range_snoc, bind_app, IH. simpl. rewrite app_nil_r.
  replace (Z.of_nat (S r) * cols) with (Z.of_nat r * cols + cols) by lia.
  unfold Py.range at 3. rewrite seqZ_app by nia. rewrite fmap_app. f_equal.
  rewrite <- (Z.add_0_r (0 + Z.of_nat r * cols)), <- fmap_add_seqZ.
  rewrite <- list_fmap_compose.
  transitivity (f (Z.of_nat r) <$> Py.range cols).
  { generalize (Py.range cols). intros l. induction l; simpl; [done|]. by f_equal. }
  apply list_fmap_ext. intros k j Hj. apply range_lookup_Some in Hj as [_ Hj].
  simpl. rewrite Z.add_0_l.
  replace (Z.of_nat r * cols + j) with (Z.of_nat r * cols + j) by done.
  destruct (row_major_div_mod cols (Z.of_nat r) j Hj) as [-> ->]. done.
Qed.

Lemma nested_range_empty {A} (f : Z → Z → A) rows cols :
  rows ≤ 0 ∨ cols ≤ 0 →
  (i ← Py.range rows; j ← Py.range cols; [f i j]) = [].
Proof.
  intros [H|H].
  - unfold Py.range. rewrite (seqZ_nil _ rows) by lia. done.
  - unfold Py.range. rewrite (seqZ_nil _ cols) by lia.
    induction (seqZ 0 rows); simpl; auto.
Qed.

(** ** Geometry of the grid *)

Section Grid.
Variables width height block_size cols rows : Z.
Hypothesis Hwidth : 0 < width.
Hypothesis Hheight : 0 < height.
Hypothesis Hsize : 0 < block_size.
Hypothesis Hcols : (cols - 1) * block_size < width ≤ cols * block_size.
Hypothesis Hrows : (rows - 1) * block_size < height ≤ rows * block_size.

Local Abbreviation rect := (block_rect width height block_size cols).
Local Abbreviation block_of := (block_of block_size cols).

Lemma cols_pos : 0 < cols.
Proof using All. nia. Qed.

Lemma rows_pos : 0 < rows.
Proof using All. nia. Qed.

Lemma grid_index_split g :
  0 ≤ g < cols * rows → 0 ≤ g `mod` cols < cols ∧ 0 ≤ g / cols < rows.
Proof using All.
  intros Hg. pose proof cols_pos as Hc. split.
  - by apply Z.mod_pos_bound.
  - split; [apply Z.div_pos; lia|]. apply Z.div_lt_upper_bound; lia.
Qed.

(** Every rectangle is non-empty, inside the buffer and at most
    [block_size] on a side. *)
Lemma rect_bounds g :
  0 ≤ g < cols * rows →
  ∃ x0 y0 x1 y1, rect g = (x0, y0, x1, y1) ∧
    x0 = g `mod` cols * block_size ∧ y0 = g / cols * block_size ∧
    0 ≤ x0 < x1 ∧ x1 ≤ width ∧ 0 ≤ y0 < y1 ∧ y1 ≤ height ∧
    x1 - x0 ≤ block_size ∧ y1 - y0 ≤ block_size.
Proof using All.
  intros Hg. destruct (grid_index_split g Hg) as [Hj Hi].
  unfold block_rect, block_box.
  do 4 eexists. split; [reflexivity|]. nia.
Qed.

Lemma in_rect_iff g x y :
  in_box (rect g) x y = true ↔
    g `mod` cols * block_size ≤ x < (g `mod` cols + 1) * block_size ∧ x < width ∧
    g / cols * block_size ≤ y < (g / cols + 1) * block_size ∧ y < height.
Proof using All.
  unfold block_rect, block_box, in_box.
  rewrite !andb_true_iff, !Z.leb_le, !Z.ltb_lt. lia.
Qed.

Lemma block_of_range x y :
  0 ≤ x < width → 0 ≤ y < height → 0 ≤ block_of x y < cols * rows.
Proof using All.
  intros Hx Hy. unfold block_of.
  assert (0 ≤ x / block_size < cols).
  { split; [apply Z.div_pos; lia|]. apply Z.div_lt_upper_bound; lia. }
  assert (0 ≤ y / block_size < rows).
  { split; [apply Z.div_pos; lia|]. apply Z.div_lt_upper_bound; lia. }
  nia.
Qed.

Lemma block_of_covers x y :
  0 ≤ x < width → 0 ≤ y < height → in_box (rect (block_of x y)) x y = true.
Proof using All.
  intros Hx Hy. apply in_rect_iff. unfold block_of.
  assert (0 ≤ x / block_size < cols) as Hj.
  { split; [apply Z.div_pos; lia|]. apply Z.div_lt_upper_bound; lia. }
  destruct (row_major_div_mod cols (y / block_size) (x / block_size) Hj) as [-> ->].
  pose proof (Z.div_mod x block_size ltac:(lia)).
  pose proof (Z.mod_pos_bound x block_size Hsize).
  pose proof (Z.div_mod y block_size ltac:(lia)).
  pose proof (Z.mod_pos_bound y block_size Hsize).
  lia.
Qed.

Lemma covering_block_unique g x y :
  in_box (rect g) x y = true → g = block_of x y.
Proof using All.
  intros Hin. apply in_rect_iff in Hin as (Hx & _ & Hy & _).
  unfold block_of.
  rewrite <- (Z.div_unique x block_size (g `mod` cols) (x - g `mod` cols * block_size))
    by lia.
  rewrite <- (Z.div_unique y block_size (g / cols) (y - g / cols * block_size))
    by lia.
  symmetry. apply div_mod_row_major, cols_pos.
Qed.

End Grid.

(** ** The extracted blocks *)

Lemma original_blocks_flat img block_size cols rows :
  0 < cols →
  original_blocks img block_size cols rows =
  (λ g, crop img (block_rect (size img).1 (size img).2 block_size cols g))
    <$> Py.range (rows * cols).
Proof.
  intros Hc.
  exact (nested_range
           (λ i j, crop img (block_box (size img).1 (size img).2 block_size i j))
           rows cols Hc).
Qed.

Lemma original_blocks_empty img block_size cols rows :
  rows ≤ 0 ∨ cols ≤ 0 → original_blocks img block_size cols rows = [].
Proof.
  intros H.
  exact (nested_range_empty
           (λ i j, crop img (block_box (size img).1 (size img).2 block_size i j))
           rows cols H).
Qed.

Lemma scrambled_blocks_original img block_size cols rows :
  scrambled_blocks img block_size cols rows =
  original_blocks img block_size cols rows.
Proof. reflexivity. Qed.

Lemma original_blocks_length img block_size cols rows :
  0 ≤ cols → 0 ≤ rows →
  Py.len (original_blocks img block_size cols rows) = cols * rows.
Proof.
  intros Hc Hr. unfold Py.len. destruct (decide (cols = 0)) as [->|Hne].
  - rewrite original_blocks_empty by lia. simpl. lia.
  - rewrite original_blocks_flat by lia.
    rewrite length_fmap, range_length. nia.
Qed.

Lemma original_blocks_lookup img block_size cols rows g :
  0 < cols → 0 ≤ g < cols * rows →
  original_blocks img block_size cols rows !! Z.to_nat g =
  Some (crop img (block_rect (size img).1 (size img).2 block_size cols g)).
Proof.
  intros Hc Hg. rewrite original_blocks_flat by done.
  rewrite list_lookup_fmap, range_lookup by lia. done.
Qed.

(** C5, on a 3 x 1 buffer with block size 2^1075.  The claim's grid is
    [cols = ceil(3 / 2^1075) = 1] and [rows = ceil(1 / 2^1075) = 1], one
    block.  The script gets [cols = 1] but [rows = 0], because the float
    quotient [1 / 2**1075] is [0.0]: [BlockCount] is 0, no block is
    extracted, and [block_scramble] saves an all-black buffer with the empty
    key. *)
Theorem grid_underflow (s : Random.state) :
  Py.ceil_div 3 (2 ^ 1075) = Ok 1 ∧
  Py.ceil_div 1 (2 ^ 1075) = Ok 0 ∧
  (1 - 1) * 2 ^ 1075 < 1 ≤ 1 * 2 ^ 1075 ∧
  original_blocks strip3 (2 ^ 1075) 1 0 = [] ∧
  scrambled_blocks strip3 (2 ^ 1075) 1 0 = [] ∧
  block_scramble (Some strip3) (2 ^ 1075) s = Ok (Image_new (3, 1), []) ∧
  to_rows (Image_new (3, 1)) = [[black; black; black]] ∧
  block_unscramble (Some strip3) (KeyJson []) (2 ^ 1075) = Ok (Image_new (3, 1)).
Proof. repeat split; done. Qed.

(** C6, on the same input (neither 3 nor 1 is a multiple of 2^1075): with
    the [cols] and [rows] the script computes, the partition has no
    rectangle at all, and each of the three pixels of the buffer lies in
    none. *)
Theorem tiling_underflow :
  ∃ cols rows,
    Py.ceil_div 3 (2 ^ 1075) = Ok cols ∧
    Py.ceil_div 1 (2 ^ 1075) = Ok rows ∧
    cols * rows = 0 ∧
    grid_positions rows cols = [] ∧
    ∀ x, 0 ≤ x < 3 →
      ¬ ∃ g, 0 ≤ g < cols * rows ∧
             in_box (block_rect 3 1 (2 ^ 1075) cols g) x 0 = true.
Proof.
  exists 1, 0. repeat split; try done.
  intros x _ (g & Hg & _). lia.
Qed.

(** ** The shuffle *)

Lemma swap_length {A} (x : list A) i j : length (Random.swap x i j) = length x.
Proof.
  unfold Random.swap. destruct (x !! i), (x !! j); try done.
  by rewrite !length_insert.
Qed.

Lemma swap_permutation {A} (x : list A) i j : Random.swap x i j ≡ₚ x.
Proof.
  unfold Random.swap.
  destruct (x !! i) as [a|] eqn:Ei; [|done].
  destruct (x !! j) as [b|] eqn:Ej; [|done].
  apply Permutation_inj. split; [by rewrite !length_insert|].
  pose proof (lookup_lt_Some _ _ _ Ei) as Hi.
  pose proof (lookup_lt_Some _ _ _ Ej) as Hj.
  exists (λ k, if decide (k = i) then j else if decide (k = j) then i else k).
  split.
  - intros k1 k2. repeat case_decide; lia.
  - intros k. destruct (decide (k = j)) as [->|Hkj].
    + rewrite list_lookup_insert_eq by (by rewrite length_insert).
      case_decide; congruence.
    + rewrite list_lookup_insert_ne by done.
      destruct (decide (k = i)) as [->|Hki].
      * by rewrite list_lookup_insert_eq.
      * by rewrite list_lookup_insert_ne.
Qed.

Lemma shuffle_loop_permutation {A} idx (x : list A) s :
  (Random.shuffle_loop idx x s).1 ≡ₚ x.
Proof.
  revert x s. induction idx as [|i idx IH]; intros x s; simpl; [done|].
  rewrite IH. apply swap_permutation.
Qed.

Lemma shuffle_permutation {A} (x : list A) s : (Random.shuffle x s).1 ≡ₚ x.
Proof. apply shuffle_loop_permutation. Qed.

(** What it means for [p] to be a key for [n] blocks: a rearrangement of
    [0, 1, ..., n - 1]. *)
Lemma permutation_of_range_facts (p : list Z) n :
  p ≡ₚ Py.range n →
  NoDup p ∧ length p = Z.to_nat n ∧ ∀ k, k ∈ p ↔ 0 ≤ k < n.
Proof.
  intros Hp. split; [|split].
  - rewrite Hp. apply NoDup_seqZ.
  - by rewrite Hp, range_length.
  - intros k. rewrite Hp. unfold Py.range. rewrite elem_of_seqZ. lia.
Qed.

(** C4.  For every [N] and every state of the random generator, the list
    produced by shuffling [list(range(N))] is a rearrangement of
    [0, ..., N - 1]: it has no repeated entry, its entries all lie in
    [0, N), and every integer of [0, N) occurs at exactly one position. *)
Theorem shuffle_is_bijection (N : Z) (s : Random.state) :
  let permutation := (Random.shuffle (Py.range N) s).1 in
  permutation ≡ₚ Py.range N ∧
  NoDup permutation ∧
  Py.len permutation = Z.max 0 N ∧
  (∀ i k, permutation !! i = Some k → 0 ≤ k < N) ∧
  (∀ k, 0 ≤ k < N →
     ∃ i, permutation !! i = Some k ∧
       ∀ i', permutation !! i' = Some k → i' = i).
Proof.
  intros permutation.
  assert (permutation ≡ₚ Py.range N) as Hp by apply shuffle_permutation.
  destruct (permutation_of_range_facts _ _ Hp) as (Hnd & Hlen & Hin).
  repeat split; try done.
  - unfold Py.len. lia.
  - apply Hin. by eapply list_elem_of_lookup_2.
  - apply Hin. by eapply list_elem_of_lookup_2.
  - intros k Hk. apply Hin, list_elem_of_lookup in Hk as [i Hi].
    exists i. split; [done|]. intros i' Hi'. by eapply NoDup_lookup.
Qed.

(** ** Sequences of pastes *)

Lemma paste_all_snoc dst ps blk pos :
  paste_all dst (ps ++ [(blk, pos)]) = paste (paste_all dst ps) blk pos.
Proof. unfold paste_all. by rewrite foldl_snoc. Qed.

Lemma paste_all_size dst ps : size (paste_all dst ps) = size dst.
Proof.
  induction ps as [|[blk pos] ps IH] using rev_ind; [done|].
  by rewrite paste_all_snoc.
Qed.

(** A pixel covered by exactly one paste of the sequence shows that block. *)
Lemma paste_all_pixel dst ps g blk pos x y :
  ps !! g = Some (blk, pos) →
  covers blk pos x y = true →
  (∀ g' blk' pos',
     ps !! g' = Some (blk', pos') → covers blk' pos' x y = true → g' = g) →
  getpixel (paste_all dst ps) x y = getpixel blk (x - pos.1) (y - pos.2).
Proof.
  revert g. induction ps as [|[blk' pos'] ps IH] using rev_ind;
    intros g Hg Hcov Huniq; [done|].
  rewrite paste_all_snoc. simpl.
  destruct (decide (g = length ps)) as [->|Hne].
  - rewrite list_lookup_middle in Hg by done. simplify_eq. by rewrite Hcov.
  - assert (g < length ps)%nat as Hlt.
    { apply lookup_lt_Some in Hg. rewrite length_app in Hg. simpl in Hg. lia. }
    rewrite lookup_app_l in Hg by done.
    destruct (covers blk' pos' x y) eqn:Hc'.
    + exfalso. apply Hne. symmetry. apply (Huniq _ blk' pos'); [|done].
      by rewrite list_lookup_middle.
    + apply (IH g); [done|done|].
      intros g' b' p' Hg' Hc. apply (Huniq g' b' p'); [|done].
      rewrite lookup_app_l; [done|]. by eapply lookup_lt_Some.
Qed.

(** A pixel that no paste covers keeps the destination's value. *)
Lemma paste_all_untouched dst ps x y :
  (∀ g blk pos, ps !! g = Some (blk, pos) → covers blk pos x y = false) →
  getpixel (paste_all dst ps) x y = getpixel dst x y.
Proof.
  induction ps as [|[blk pos] ps IH] using rev_ind; intros Hnone; [done|].
  rewrite paste_all_snoc. simpl.
  rewrite (Hnone (length ps) blk pos) by (by rewrite list_lookup_middle).
  apply IH. intros g b p Hg. apply (Hnone g).
  rewrite lookup_app_l; [done|]. by eapply lookup_lt_Some.
Qed.

(** ** The paste loop of the scrambler *)

Lemma grid_positions_flat rows cols :
  0 < cols →
  grid_positions rows cols =
  (λ g, (g / cols, g `mod` cols)) <$> Py.range (rows * cols).
Proof. intros Hc. exact (nested_range pair rows cols Hc). Qed.

Lemma grid_positions_empty rows cols :
  rows ≤ 0 ∨ cols ≤ 0 → grid_positions rows cols = [].
Proof. intros H. exact (nested_range_empty pair rows cols H). Qed.

Lemma key_fits_lookup {A} (permutation : list Z) (blocks : list A) g :
  key_fits permutation blocks → 0 ≤ g < Py.len blocks →
  ∃ p blk, permutation !! Z.to_nat g = Some p ∧ 0 ≤ p < Py.len blocks ∧
           blocks !! Z.to_nat p = Some blk.
Proof.
  intros [Hlen Hin] Hg. unfold Py.len in *.
  destruct (lookup_lt_is_Some_2 permutation (Z.to_nat g)) as [p Hp]; [lia|].
  assert (0 ≤ p < Z.of_nat (length blocks)) as Hpr.
  { apply Hin. by eapply list_elem_of_lookup_2. }
  destruct (lookup_lt_is_Some_2 blocks (Z.to_nat p)) as [blk Hblk]; [lia|].
  by exists p, blk.
Qed.

Lemma scramble_loop_prefix blocks permutation block_size cols init t :
  0 < cols → key_fits permutation blocks → (t ≤ length blocks)%nat →
  ∃ ps, length ps = t ∧
    foldl (λ acc g, scramble_step blocks permutation block_size cols acc
                                  (g / cols, g `mod` cols))
          (Ok init) (Py.range (Z.of_nat t)) = Ok (paste_all init ps) ∧
    ∀ g, 0 ≤ g < Z.of_nat t →
      ∃ p blk, permutation !! Z.to_nat g = Some p ∧
               blocks !! Z.to_nat p = Some blk ∧
               ps !! Z.to_nat g =
                 Some (blk, (g `mod` cols * block_size, g / cols * block_size)).
Proof.
  intros Hc Hfit. induction t as [|t IH]; intros Ht.
  { exists []. split; [done|]. split; [done|]. intros g Hg. lia. }
  destruct IH as (ps & Hlen & Hfold & Hps); [lia|].
  destruct (key_fits_lookup permutation blocks (Z.of_nat t) Hfit)
    as (p & blk & Hp & Hpr & Hblk); [unfold Py.len; lia|].
  exists (ps ++ [(blk, (Z.of_nat t `mod` cols * block_size,
                        Z.of_nat t / cols * block_size))]).
  split; [rewrite length_app; simpl; lia|]. split.
  - rewrite range_snoc, foldl_snoc, Hfold, paste_all_snoc.
    unfold scramble_step. simpl.
    rewrite (div_mod_row_major cols (Z.of_nat t) Hc).
    destruct Hfit as [Hfl _].
    destruct (Z.of_nat t <? Py.len permutation) eqn:E;
      [|unfold Py.len in E; lia].
    rewrite (get_lookup permutation (Z.of_nat t) p) by (done || lia). simpl.
    by rewrite (get_lookup blocks p blk) by (done || lia).
  - intros g Hg. destruct (decide (g = Z.of_nat t)) as [->|Hne].
    + exists p, blk. repeat split; try done.
      rewrite Nat2Z.id, <- Hlen. by rewrite list_lookup_middle.
    + destruct (Hps g) as (p' & blk' & Hp' & Hblk' & Hg'); [lia|].
      exists p', blk'. repeat split; try done.
      rewrite lookup_app_l by lia. done.
Qed.

Lemma scramble_loop_ok blocks permutation block_size cols rows init :
  0 ≤ cols → 0 ≤ rows → key_fits permutation blocks →
  Py.len blocks = rows * cols →
  ∃ ps, length ps = length blocks ∧
    foldl (scramble_step blocks permutation block_size cols)
          (Ok init) (grid_positions rows cols) = Ok (paste_all init ps) ∧
    ∀ g, 0 ≤ g < rows * cols →
      ∃ p blk, permutation !! Z.to_nat g = Some p ∧
               blocks !! Z.to_nat p = Some blk ∧
               ps !! Z.to_nat g =
                 Some (blk, (g `mod` cols * block_size, g / cols * block_size)).
Proof.
  intros Hc0 Hr Hfit Hn. destruct (decide (cols = 0)) as [->|Hne].
  { exists []. rewrite grid_positions_empty by lia.
    unfold Py.len in Hn. destruct blocks; [|simpl in Hn; lia].
    split; [done|]. split; [done|]. intros g Hg. lia. }
  assert (0 < cols) as Hc by lia.
  destruct (scramble_loop_prefix blocks permutation block_size cols init
              (length blocks) Hc Hfit) as (ps & Hlen & Hfold & Hps); [lia|].
  exists ps. split; [done|]. split.
  - rewrite grid_positions_flat, foldl_fmap by done.
    rewrite <- Hn. exact Hfold.
  - intros g Hg. apply Hps. unfold Py.len in Hn. lia.
Qed.

(** ** The reconstruction loop of the unscrambler *)

Lemma reconstruct_prefix permutation blocks t :
  key_fits permutation blocks → (t ≤ length permutation)%nat →
  ∃ ordered,
    foldl (reconstruct_step permutation blocks)
          (Ok (replicate (length blocks) None)) (Py.range (Z.of_nat t))
      = Ok ordered ∧
    length ordered = length blocks ∧
    ∀ m, (m < length blocks)%nat →
      ∃ slot, ordered !! m = Some slot ∧ slot_after permutation blocks t m slot.
Proof.
  intros Hfit. induction t as [|t IH]; intros Ht.
  { exists (replicate (length blocks) None).
    split; [done|]. split; [by rewrite length_replicate|].
    intros m Hm. exists None. split; [by apply lookup_replicate_2|].
    simpl. intros k Hk. lia. }
  destruct IH as (ordered & Hfold & Hlen & Hinv); [lia|].
  destruct (key_fits_lookup permutation blocks (Z.of_nat t) Hfit)
    as (p & _ & Hp & Hpr & _); [destruct Hfit; unfold Py.len; lia|].
  destruct (lookup_lt_is_Some_2 blocks t) as [blk Hblk];
    [destruct Hfit; lia|].
  rewrite Nat2Z.id in Hp.
  exists (<[Z.to_nat p:=Some blk]> ordered).
  split; [|split].
  - rewrite range_snoc, foldl_snoc, Hfold. unfold reconstruct_step. simpl.
    rewrite (get_lookup permutation (Z.of_nat t) p)
      by (lia || by rewrite Nat2Z.id). simpl.
    rewrite (get_lookup blocks (Z.of_nat t) blk)
      by (lia || by rewrite Nat2Z.id). simpl.
    apply set_insert. unfold Py.len in *. lia.
  - by rewrite length_insert.
  - intros m Hm. destruct (decide (m = Z.to_nat p)) as [->|Hne].
    + exists (Some blk). split.
      * apply list_lookup_insert_eq. unfold Py.len in Hpr. lia.
      * simpl. exists t. rewrite Z2Nat.id by lia.
        repeat split; try done; lia.
    + destruct (Hinv m Hm) as (slot & Hslot & Hafter).
      exists slot. split; [by rewrite list_lookup_insert_ne|].
      assert (permutation !! t ≠ Some (Z.of_nat m)) as Hnot.
      { rewrite Hp. intros [= ->]. apply Hne. by rewrite Nat2Z.id. }
      destruct slot as [b|]; simpl in *.
      * destruct Hafter as (k & Hk & Hpk & Hbk & Hlast).
        exists k. repeat split; try done; try lia.
        intros k' Hk'. destruct (decide (k' = t)) as [->|]; [done|].
        apply Hlast. lia.
      * intros k Hk. destruct (decide (k = t)) as [->|]; [done|].
        apply Hafter. lia.
Qed.

(** The loop never rejects a key of the right length with entries in
    range, and leaves in every slot what the last assignment put there. *)
Lemma reconstruct_ok permutation blocks :
  key_fits permutation blocks →
  ∃ ordered,
    reconstruct permutation blocks = Ok ordered ∧
    length ordered = length blocks ∧
    ∀ m, (m < length blocks)%nat →
      ∃ slot, ordered !! m = Some slot ∧
              slot_after permutation blocks (length permutation) m slot.
Proof.
  intros Hfit.
  destruct (reconstruct_prefix permutation blocks (length permutation) Hfit)
    as (ordered & Hfold & Hrest); [lia|].
  exists ordered. split; [|done]. exact Hfold.
Qed.

(** ** The paste loop of the unscrambler *)

Lemma unscramble_loop_prefix (ordered : list (option image)) block_size cols init t :
  0 < cols → (t ≤ length ordered)%nat →
  (∀ m, (m < t)%nat → ∃ blk, ordered !! m = Some (Some blk)) →
  ∃ ps, length ps = t ∧
    foldl (λ acc g, unscramble_step ordered block_size acc
                                    (g / cols, g `mod` cols))
          (Ok (init, 0)) (Py.range (Z.of_nat t))
      = Ok (paste_all init ps, Z.of_nat t) ∧
    ∀ g, 0 ≤ g < Z.of_nat t →
      ∃ blk, ordered !! Z.to_nat g = Some (Some blk) ∧
             ps !! Z.to_nat g =
               Some (blk, (g `mod` cols * block_size, g / cols * block_size)).
Proof.
  intros Hc. induction t as [|t IH]; intros Ht Hfull.
  { exists []. split; [done|]. split; [done|]. intros g Hg. lia. }
  destruct IH as (ps & Hlen & Hfold & Hps); [lia|auto with lia|].
  destruct (Hfull t) as [blk Hblk]; [lia|].
  exists (ps ++ [(blk, (Z.of_nat t `mod` cols * block_size,
                        Z.of_nat t / cols * block_size))]).
  split; [rewrite length_app; simpl; lia|]. split.
  - rewrite range_snoc, foldl_snoc, Hfold, paste_all_snoc.
    unfold unscramble_step. simpl.
    destruct (Z.of_nat t <? Py.len ordered) eqn:E;
      [|unfold Py.len in E; lia].
    rewrite (get_lookup ordered (Z.of_nat t) (Some blk))
      by (lia || by rewrite Nat2Z.id). simpl.
    do 2 f_equal. lia.
  - intros g Hg. destruct (decide (g = Z.of_nat t)) as [->|Hne].
    + exists blk. rewrite Nat2Z.id. split; [done|].
      rewrite <- Hlen. by rewrite list_lookup_middle.
    + destruct (Hps g) as (blk' & Hblk' & Hg'); [lia|].
      exists blk'. split; [done|]. by rewrite lookup_app_l by lia.
Qed.

Lemma unscramble_composite_ok wh block_size cols rows (ordered : list (option image)) :
  0 ≤ cols → 0 ≤ rows → Py.len ordered = rows * cols →
  (∀ m, (m < length ordered)%nat → ∃ blk, ordered !! m = Some (Some blk)) →
  ∃ ps, length ps = length ordered ∧
    unscramble_composite wh block_size cols rows ordered
      = Ok (paste_all (Image_new wh) ps) ∧
    ∀ g, 0 ≤ g < rows * cols →
      ∃ blk, ordered !! Z.to_nat g = Some (Some blk) ∧
             ps !! Z.to_nat g =
               Some (blk, (g `mod` cols * block_size, g / cols * block_size)).
Proof.
  intros Hc0 Hr Hn Hfull. unfold unscramble_composite.
  destruct (decide (cols = 0)) as [->|Hne].
  { exists []. rewrite grid_positions_empty by lia.
    unfold Py.len in Hn. destruct ordered; [|simpl in Hn; lia].
    split; [done|]. split; [done|]. intros g Hg. lia. }
  assert (0 < cols) as Hc by lia.
  destruct (unscramble_loop_prefix ordered block_size cols (Image_new wh)
              (length ordered) Hc) as (ps & Hlen & Hfold & Hps); [lia|done|].
  exists ps. split; [done|]. split.
  - rewrite grid_positions_flat, foldl_fmap by done.
    rewrite <- Hn. unfold Py.len. by rewrite Hfold.
  - intros g Hg. apply Hps. unfold Py.len in Hn. lia.
Qed.

(** ** Unfolding the two operations on an image that loads *)

Lemma scramble_with_eq gen img block_size cols rows :
  Py.ceil_div (size img).1 block_size = Ok cols →
  Py.ceil_div (size img).2 block_size = Ok rows →
  scramble_with gen (Some img) block_size =
  (let blocks := original_blocks img block_size cols rows in
   let permutation := gen (Py.range (Py.len blocks)) in
   scrambled_img ←
     foldl (scramble_step blocks permutation block_size cols)
           (Ok (Image_new (size img))) (grid_positions rows cols);
   mret (scrambled_img, permutation)).
Proof.
  intros Ec Er. unfold scramble_with, size in *.
  cbn [open_image mbind result_bind fst snd] in *.
  rewrite Ec. cbn [mbind result_bind]. rewrite Er. reflexivity.
Qed.

Lemma block_unscramble_eq img permutation block_size cols rows :
  Py.ceil_div (size img).1 block_size = Ok cols →
  Py.ceil_div (size img).2 block_size = Ok rows →
  block_unscramble (Some img) (KeyJson permutation) block_size =
  (let blocks := scrambled_blocks img block_size cols rows in
   if negb (Py.len permutation =? Py.len blocks) then Err KeySizeMismatch
   else
     unscrambled_blocks_ordered ← reconstruct permutation blocks;
     unscramble_composite (size img) block_size cols rows
                          unscrambled_blocks_ordered).
Proof.
  intros Ec Er. unfold block_unscramble, size in *.
  cbn [load_key open_image mbind result_bind fst snd] in *.
  rewrite Ec. cbn [mbind result_bind]. rewrite Er. reflexivity.
Qed.

Lemma size_Image_new im : size (Image_new (size im)) = size im.
Proof. unfold size, Image_new. simpl. f_equal; lia. Qed.

Lemma in_bounds_iff im x y :
  in_bounds im x y = true ↔ 0 ≤ x < (size im).1 ∧ 0 ≤ y < (size im).2.
Proof.
  unfold in_bounds. rewrite !andb_true_iff, !Z.leb_le, !Z.ltb_lt. lia.
Qed.

(** ** Pixels of a composited buffer *)

Section Composite.
Variables width height block_size cols rows : Z.
Hypothesis Hwidth : 0 < width.
Hypothesis Hheight : 0 < height.
Hypothesis Hsize : 0 < block_size.
Hypothesis Hcols : (cols - 1) * block_size < width ≤ cols * block_size.
Hypothesis Hrows : (rows - 1) * block_size < height ≤ rows * block_size.

Local Abbreviation rect := (block_rect width height block_size cols).
Local Abbreviation block_of := (block_of block_size cols).
Local Abbreviation corner :=
  (λ g : Z, (g `mod` cols * block_size, g / cols * block_size)).

(** A block cropped from rectangle [q] and pasted at the corner of a
    rectangle [g] of the same shape covers exactly rectangle [g]. *)
Lemma covers_crop src g q x y :
  0 ≤ g < cols * rows → 0 ≤ q < cols * rows →
  same_shape (rect q) (rect g) →
  covers (crop src (rect q)) (corner g) x y = in_box (rect g) x y.
Proof using All.
  intros Hg Hq [Hsw Hsh].
  destruct (rect_bounds width height block_size cols rows
              Hwidth Hheight Hsize Hcols Hrows g Hg)
    as (gx0 & gy0 & gx1 & gy1 & Eg & -> & -> & ?).
  destruct (rect_bounds width height block_size cols rows
              Hwidth Hheight Hsize Hcols Hrows q Hq)
    as (qx0 & qy0 & qx1 & qy1 & Eq & -> & -> & ?).
  rewrite Eg, Eq in *. unfold box_width, box_height in *.
  apply eq_true_iff_eq. unfold covers, in_box, crop, size. simpl.
  rewrite !andb_true_iff, !Z.leb_le, !Z.ltb_lt. lia.
Qed.

(** Where such a block takes its pixels from. *)
Lemma crop_pixel src g q x y :
  0 ≤ g < cols * rows → 0 ≤ q < cols * rows →
  same_shape (rect q) (rect g) →
  in_box (rect g) x y = true →
  let x' := q `mod` cols * block_size + (x - g `mod` cols * block_size) in
  let y' := q / cols * block_size + (y - g / cols * block_size) in
  getpixel (crop src (rect q)) (x - (corner g).1) (y - (corner g).2)
    = pixel_at src x' y' ∧
  in_box (rect q) x' y' = true.
Proof using All.
  intros Hg Hq [Hsw Hsh] Hin x' y'. split; [done|].
  unfold same_shape, box_width, box_height, in_box, block_rect, block_box in *.
  subst x' y'.
  rewrite !andb_true_iff, !Z.leb_le, !Z.ltb_lt in *. lia.
Qed.

(** A buffer composited from blocks that each have the shape of the
    rectangle they are pasted on: every pixel comes from the one block
    whose rectangle holds it. *)
Lemma composite_pixel src dst ps x y q :
  (∀ g, 0 ≤ g < cols * rows →
     ∃ q', 0 ≤ q' < cols * rows ∧ same_shape (rect q') (rect g) ∧
           ps !! Z.to_nat g = Some (crop src (rect q'), corner g)) →
  length ps = Z.to_nat (cols * rows) →
  0 ≤ x < width → 0 ≤ y < height →
  ps !! Z.to_nat (block_of x y) = Some (crop src (rect q), corner (block_of x y)) →
  0 ≤ q < cols * rows →
  same_shape (rect q) (rect (block_of x y)) →
  let g := block_of x y in
  let x' := q `mod` cols * block_size + (x - g `mod` cols * block_size) in
  let y' := q / cols * block_size + (y - g / cols * block_size) in
  getpixel (paste_all dst ps) x y = pixel_at src x' y' ∧
  in_box (rect q) x' y' = true.
Proof using All.
  intros Hps Hlen Hx Hy Hg Hq Hshape g x' y'.
  pose proof (block_of_range width height block_size cols rows
                Hwidth Hheight Hsize Hcols Hrows x y Hx Hy) as Hgr.
  pose proof (block_of_covers width height block_size cols rows
                Hwidth Hheight Hsize Hcols Hrows x y Hx Hy) as Hgc.
  destruct (crop_pixel src g q x y Hgr Hq Hshape Hgc) as [Hpix Hin].
  split; [|exact Hin]. etransitivity; [|exact Hpix].
  apply (paste_all_pixel dst ps (Z.to_nat g)); [exact Hg| |].
  - by rewrite covers_crop.
  - intros g' blk' pos' Hg' Hcov.
    assert (0 ≤ Z.of_nat g' < cols * rows) as Hg'r.
    { apply lookup_lt_Some in Hg'. lia. }
    destruct (Hps (Z.of_nat g') Hg'r) as (q' & Hq' & Hsh' & Hl').
    rewrite Nat2Z.id in Hl'. simplify_eq.
    rewrite covers_crop in Hcov by done.
    apply (covering_block_unique width height block_size cols rows
             Hwidth Hheight Hsize Hcols Hrows) in Hcov.
    fold g. lia.
Qed.

End Composite.

(** ** One run of each operation *)

Lemma grid_nonneg (im : image) block_size cols rows :
  0 < block_size →
  Py.ceil_div (size im).1 block_size = Ok cols →
  Py.ceil_div (size im).2 block_size = Ok rows →
  0 ≤ cols ∧ 0 ≤ rows.
Proof.
  intros Hb Ec Er. split.
  - apply (ceil_div_nonneg (size im).1 block_size); try done.
    unfold size. simpl. lia.
  - apply (ceil_div_nonneg (size im).2 block_size); try done.
    unfold size. simpl. lia.
Qed.

(** The grid of a block size below 2^1075. *)
Lemma grid_exact (im : image) block_size cols rows :
  0 < block_size → block_size < 2 ^ 1075 →
  Py.ceil_div (size im).1 block_size = Ok cols →
  Py.ceil_div (size im).2 block_size = Ok rows →
  ((cols - 1) * block_size < (size im).1 ≤ cols * block_size) ∧
  ((rows - 1) * block_size < (size im).2 ≤ rows * block_size).
Proof.
  intros Hb Hsmall Ec Er.
  destruct (ceil_div_spec (size im).1 block_size Hb Hsmall) as (c & Ec' & Hc).
  destruct (ceil_div_spec (size im).2 block_size Hb Hsmall) as (r & Er' & Hr).
  assert (c = cols) as -> by congruence.
  assert (r = rows) as -> by congruence.
  done.
Qed.

Lemma permutation_key_fits {A} (permutation : list Z) (blocks : list A) :
  permutation ≡ₚ Py.range (Py.len blocks) → key_fits permutation blocks.
Proof.
  intros Hp. destruct (permutation_of_range_facts _ _ Hp) as (_ & Hlen & Hin).
  split; [unfold Py.len in Hlen; lia|]. intros k Hk. by apply Hin.
Qed.

(** The scrambler succeeds, and its output is the blank buffer on which
    block [permutation[g]] of the input was pasted at the corner of
    rectangle [g], for every [g]. *)
Lemma scramble_run gen img block_size cols rows :
  0 < block_size →
  Py.ceil_div (size img).1 block_size = Ok cols →
  Py.ceil_div (size img).2 block_size = Ok rows →
  gen (Py.range (cols * rows)) ≡ₚ Py.range (cols * rows) →
  ∃ ps,
    scramble_with gen (Some img) block_size =
      Ok (paste_all (Image_new (size img)) ps, gen (Py.range (cols * rows))) ∧
    length ps = Z.to_nat (cols * rows) ∧
    ∀ g, 0 ≤ g < cols * rows →
      ∃ p, gen (Py.range (cols * rows)) !! Z.to_nat g = Some p ∧
           0 ≤ p < cols * rows ∧
           original_blocks img block_size cols rows !! Z.to_nat p =
             Some (crop img (block_rect (size img).1 (size img).2
                                        block_size cols p)) ∧
           ps !! Z.to_nat g =
             Some (crop img (block_rect (size img).1 (size img).2
                                        block_size cols p),
                   (g `mod` cols * block_size, g / cols * block_size)).
Proof.
  intros Hb Ec Er Hperm.
  destruct (grid_nonneg img block_size cols rows Hb Ec Er) as [Hc Hr].
  pose proof (original_blocks_length img block_size cols rows Hc Hr) as Hlen.
  rewrite <- Hlen in Hperm.
  pose proof (permutation_key_fits _ _ Hperm) as Hfit.
  destruct (scramble_loop_ok _ _ block_size cols rows (Image_new (size img))
              Hc Hr Hfit) as (ps & Hl & Hfold & Hps); [lia|].
  exists ps. split; [|split].
  - rewrite (scramble_with_eq gen img block_size cols rows Ec Er). cbv zeta.
    rewrite Hfold. by rewrite Hlen.
  - unfold Py.len in Hlen. lia.
  - intros g Hg. destruct (Hps g) as (p & blk & Hp & Hblk & Hg'); [lia|].
    rewrite Hlen in Hp. exists p.
    assert (0 ≤ p < cols * rows) as Hpr.
    { rewrite <- Hlen. destruct Hfit as [_ Hin]. apply Hin.
      rewrite Hlen. by eapply list_elem_of_lookup_2. }
    rewrite original_blocks_lookup in Hblk by nia. simplify_eq.
    repeat split; try done; try lia.
    apply original_blocks_lookup; nia.
Qed.

(** The unscrambler accepts a key that is a permutation, and its output is
    the blank buffer on which, for every [k], block [k] of the scrambled
    buffer was pasted at the corner of rectangle [permutation[k]]. *)
Lemma unscramble_run (permutation : list Z) img block_size cols rows :
  0 < block_size →
  Py.ceil_div (size img).1 block_size = Ok cols →
  Py.ceil_div (size img).2 block_size = Ok rows →
  permutation ≡ₚ Py.range (cols * rows) →
  ∃ ps,
    block_unscramble (Some img) (KeyJson permutation) block_size =
      Ok (paste_all (Image_new (size img)) ps) ∧
    length ps = Z.to_nat (cols * rows) ∧
    ∀ g, 0 ≤ g < cols * rows →
      ∃ k, 0 ≤ k < cols * rows ∧
           permutation !! Z.to_nat k = Some g ∧
           ps !! Z.to_nat g =
             Some (crop img (block_rect (size img).1 (size img).2
                                        block_size cols k),
                   (g `mod` cols * block_size, g / cols * block_size)).
Proof.
  intros Hb Ec Er Hperm.
  destruct (grid_nonneg img block_size cols rows Hb Ec Er) as [Hc Hr].
  pose proof (original_blocks_length img block_size cols rows Hc Hr) as Hlen.
  destruct (permutation_of_range_facts _ _ Hperm) as (_ & Hplen & Hpin).
  rewrite <- Hlen in Hperm.
  pose proof (permutation_key_fits _ _ Hperm) as Hfit.
  destruct (reconstruct_ok _ _ Hfit) as (ordered & Hrec & Hol & Hslots).
  assert (∀ m, (m < length ordered)%nat →
            ∃ k blk, (k < length permutation)%nat ∧
                     permutation !! k = Some (Z.of_nat m) ∧
                     original_blocks img block_size cols rows !! k = Some blk ∧
                     ordered !! m = Some (Some blk)) as Hfull.
  { intros m Hm. destruct (Hslots m) as (slot & Hslot & Hafter); [lia|].
    destruct slot as [blk|]; simpl in Hafter.
    - destruct Hafter as (k & Hk & Hpk & Hbk & _). by exists k, blk.
    - exfalso. assert (Z.of_nat m ∈ permutation) as Hin.
      { apply Hpin. unfold Py.len in Hlen. lia. }
      apply list_elem_of_lookup in Hin as [k Hk].
      apply (Hafter k); [by eapply lookup_lt_Some|done]. }
  destruct (unscramble_composite_ok (size img) block_size cols rows ordered
              Hc Hr) as (ps & Hl & Hcomp & Hps).
  { unfold Py.len in *. lia. }
  { intros m Hm. destruct (Hfull m Hm) as (k & blk & _ & _ & _ & Hslot).
    by exists blk. }
  exists ps. split; [|split].
  - rewrite (block_unscramble_eq img permutation block_size cols rows Ec Er).
    cbv zeta. rewrite scrambled_blocks_original.
    destruct Hfit as [Hfl _].
    replace (Py.len permutation =? Py.len (original_blocks img block_size cols rows))
      with true by (unfold Py.len; lia).
    simpl. rewrite Hrec. exact Hcomp.
  - unfold Py.len in Hlen. lia.
  - intros g Hg. destruct (Hps g) as (blk & Hslot & Hg'); [lia|].
    destruct (Hfull (Z.to_nat g)) as (k & blk' & Hk & Hpk & Hbk & Hslot').
    { unfold Py.len in Hlen. lia. }
    rewrite Z2Nat.id in Hpk by lia. simplify_eq.
    exists (Z.of_nat k). rewrite Nat2Z.id.
    assert (0 ≤ Z.of_nat k < cols * rows) as Hkr by lia.
    rewrite <- (Nat2Z.id k) in Hbk.
    rewrite original_blocks_lookup in Hbk by nia. simplify_eq.
    done.
Qed.

(** ** Round trip *)

Lemma same_shape_sym a b : same_shape a b → same_shape b a.
Proof. intros [??]. by split. Qed.

Lemma pixel_at_in_bounds im x y :
  0 ≤ x < (size im).1 → 0 ≤ y < (size im).2 → pixel_at im x y = getpixel im x y.
Proof.
  intros Hx Hy. unfold pixel_at.
  by rewrite (proj2 (in_bounds_iff im x y)).
Qed.

(** Scrambling with a key that only moves blocks between rectangles of the
    same shape, then unscrambling with that key, restores every pixel. *)
Lemma roundtrip_shape_preserving gen img block_size cols rows :
  0 < block_size →
  Py.ceil_div (size img).1 block_size = Ok cols →
  Py.ceil_div (size img).2 block_size = Ok rows →
  (cols - 1) * block_size < (size img).1 ≤ cols * block_size →
  (rows - 1) * block_size < (size img).2 ≤ rows * block_size →
  gen (Py.range (cols * rows)) ≡ₚ Py.range (cols * rows) →
  shape_preserving (size img).1 (size img).2 block_size cols rows
                   (gen (Py.range (cols * rows))) →
  ∃ scrambled restored,
    scramble_with gen (Some img) block_size
      = Ok (scrambled, gen (Py.range (cols * rows))) ∧
    size scrambled = size img ∧
    block_unscramble (Some scrambled)
                     (KeyJson (gen (Py.range (cols * rows)))) block_size
      = Ok restored ∧
    img_eq restored img.
Proof.
  intros Hb Ec Er Hc Hr Hperm Hshape.
  set (permutation := gen (Py.range (cols * rows))) in *.
  destruct (scramble_run gen img block_size cols rows Hb Ec Er Hperm)
    as (ps1 & Hs & Hl1 & Hps1). fold permutation in Hs, Hps1.
  set (S := paste_all (Image_new (size img)) ps1) in *.
  assert (size S = size img) as HsS.
  { unfold S. by rewrite paste_all_size, size_Image_new. }
  destruct (unscramble_run permutation S block_size cols rows Hb)
    as (ps2 & Hu & Hl2 & Hps2); [by rewrite HsS|by rewrite HsS|done|].
  rewrite HsS in Hps2.
  exists S, (paste_all (Image_new (size S)) ps2).
  split; [done|]. split; [done|]. split; [done|]. split.
  { by rewrite paste_all_size, size_Image_new. }
  intros x y Hin. apply in_bounds_iff in Hin.
  rewrite paste_all_size, size_Image_new, HsS in Hin. destruct Hin as [Hx Hy].
  set (w := (size img).1) in *. set (h := (size img).2) in *.
  assert (0 < w) as Hw by lia. assert (0 < h) as Hh by lia.
  set (g := block_of block_size cols x y).
  pose proof (block_of_range w h block_size cols rows Hw Hh Hb Hc Hr x y Hx Hy)
    as Hgr. fold g in Hgr.
  (* the block pasted on rectangle g by the unscrambler *)
  destruct (Hps2 g Hgr) as (k & Hk & Hpk & Hg2).
  pose proof (Hshape k g Hk Hpk) as Hgk.
  destruct (composite_pixel w h block_size cols rows Hw Hh Hb Hc Hr
              S (Image_new (size S)) ps2 x y k) as [Hpix2 Hin2];
    try done.
  { intros g' Hg'. destruct (Hps2 g' Hg') as (k' & Hk' & Hpk' & Hg2').
    exists k'. split; [done|]. split; [|done].
    apply same_shape_sym, (Hshape k' g' Hk' Hpk'). }
  { by apply same_shape_sym. }
  fold g in Hpix2, Hin2. rewrite Hpix2.
  set (x' := k `mod` cols * block_size + (x - g `mod` cols * block_size)) in *.
  set (y' := k / cols * block_size + (y - g / cols * block_size)) in *.
  assert (0 ≤ x' < w ∧ 0 ≤ y' < h) as [Hx' Hy'].
  { apply (in_rect_iff w h block_size cols rows Hw Hh Hb Hc Hr) in Hin2.
    destruct (grid_index_split w h block_size cols rows Hw Hh Hb Hc Hr k Hk).
    nia. }
  rewrite pixel_at_in_bounds by (by rewrite HsS).
  (* the block pasted on rectangle k by the scrambler *)
  pose proof (covering_block_unique w h block_size cols rows Hw Hh Hb Hc Hr
                k x' y' Hin2) as Hkx.
  destruct (Hps1 k Hk) as (p & Hp & Hpr & _ & Hg1).
  assert (p = g) as -> by congruence.
  destruct (composite_pixel w h block_size cols rows Hw Hh Hb Hc Hr
              img (Image_new (size img)) ps1 x' y' g) as [Hpix1 _];
    try done.
  { intros g' Hg'. destruct (Hps1 g' Hg') as (p' & Hp' & Hpr' & _ & Hg1').
    exists p'. split; [done|]. split; [|done]. apply (Hshape g' p' Hg' Hp'). }
  { by rewrite <- Hkx. }
  { by rewrite <- Hkx. }
  rewrite <- Hkx in Hpix1. unfold S. rewrite Hpix1.
  replace (g `mod` cols * block_size + (x' - k `mod` cols * block_size))
    with x by (unfold x'; lia).
  replace (g / cols * block_size + (y' - k / cols * block_size))
    with y by (unfold y'; lia).
  by apply pixel_at_in_bounds.
Qed.

Lemma img_eq_rows a b : img_eq a b → to_rows a = to_rows b.
Proof.
  intros [Hs Hpx]. unfold to_rows. rewrite <- Hs.
  apply list_fmap_ext. intros i y Hy. apply range_lookup_Some in Hy as [_ Hy].
  apply list_fmap_ext. intros j x Hx. apply range_lookup_Some in Hx as [_ Hx].
  apply Hpx. by apply in_bounds_iff.
Qed.

(** ** Block sizes that divide both dimensions *)

Lemma even_ceil_div cols block_size :
  0 < block_size → Py.ceil_div (cols * block_size) block_size = Ok cols.
Proof.
  intros Hb. pose proof (underflow_threshold block_size Hb) as HT.
  destruct (ceil_div_cases (cols * block_size) block_size ltac:(lia))
    as [[Hu ->]|[_ ->]]; f_equal.
  - rewrite (Z.abs_eq block_size) in Hu by lia.
    rewrite Z.abs_mul, (Z.abs_eq block_size) in Hu by lia. nia.
  - rewrite <- Z.mul_opp_l, Z.div_mul by lia. lia.
Qed.

Lemma even_rect_shape block_size cols rows g :
  0 < block_size → 0 ≤ g < cols * rows → 0 ≤ cols → 0 ≤ rows →
  let rect := block_rect (cols * block_size) (rows * block_size) block_size cols in
  box_width (rect g) = block_size ∧ box_height (rect g) = block_size.
Proof.
  intros Hb Hg Hc Hr rect.
  assert (0 < cols) as Hcp by nia. assert (0 < rows) as Hrp by nia.
  destruct (grid_index_split (cols * block_size) (rows * block_size)
              block_size cols rows) with (g := g) as [Hj Hi]; try nia.
  unfold rect, block_rect, block_box, box_width, box_height. nia.
Qed.

Lemma even_shape_preserving block_size cols rows (permutation : list Z) :
  0 < block_size → 0 ≤ cols → 0 ≤ rows →
  (∀ k, k ∈ permutation → 0 ≤ k < cols * rows) →
  shape_preserving (cols * block_size) (rows * block_size) block_size
                   cols rows permutation.
Proof.
  intros Hb Hc Hr Hin g p Hg Hp.
  assert (0 ≤ p < cols * rows) as Hpr.
  { apply Hin. by eapply list_elem_of_lookup_2. }
  destruct (even_rect_shape block_size cols rows g Hb Hg Hc Hr) as [Hgw Hgh].
  destruct (even_rect_shape block_size cols rows p Hb Hpr Hc Hr) as [Hpw Hph].
  split; congruence.
Qed.

(** C10.  When [block_size >= 1] divides both dimensions of the buffer
    ([cols] and [rows] being the quotients), every block rectangle is
    [block_size] by [block_size], and for every permutation of the block
    indices that the scrambler may draw, scrambling succeeds, and
    unscrambling its output with that permutation and the same block size
    succeeds and returns a buffer equal to the original pixel for pixel. *)
Theorem roundtrip_even_blocks gen img block_size cols rows :
  1 ≤ block_size →
  (size img).1 = cols * block_size →
  (size img).2 = rows * block_size →
  gen (Py.range (cols * rows)) ≡ₚ Py.range (cols * rows) →
  let permutation := gen (Py.range (cols * rows)) in
  let rect := block_rect (size img).1 (size img).2 block_size cols in
  (∀ g, 0 ≤ g < cols * rows →
     box_width (rect g) = block_size ∧ box_height (rect g) = block_size) ∧
  ∃ scrambled restored,
    scramble_with gen (Some img) block_size = Ok (scrambled, permutation) ∧
    block_unscramble (Some scrambled) (KeyJson permutation) block_size
      = Ok restored ∧
    img_eq restored img ∧
    to_rows restored = to_rows img.
Proof.
  intros Hb Hw Hh Hperm permutation rect.
  assert (0 < block_size) as Hbp by lia.
  assert (0 ≤ cols ∧ 0 ≤ rows) as [Hc Hr].
  { unfold size in *. simpl in *. nia. }
  split.
  { intros g Hg. unfold rect. rewrite Hw, Hh.
    by apply even_rect_shape. }
  destruct (roundtrip_shape_preserving gen img block_size cols rows Hbp)
    as (scrambled & restored & Hs & _ & Hu & Heq).
  - rewrite Hw. by apply even_ceil_div.
  - rewrite Hh. by apply even_ceil_div.
  - rewrite Hw. lia.
  - rewrite Hh. lia.
  - done.
  - rewrite Hw, Hh. apply even_shape_preserving; try done.
    intros k Hk. by apply (permutation_of_range_facts _ _ Hperm).
  - exists scrambled, restored. repeat split; try done; try apply Heq.
    by apply img_eq_rows.
Qed.

Lemma roundtrip_even_blocks_square4 :
  let gen := λ x : list Z, (Random.shuffle x [1; 0; 0]).1 in
  let permutation := gen (Py.range (2 * 2)) in
  let rect := block_rect (size square4).1 (size square4).2 2 2 in
  (∀ g, 0 ≤ g < 2 * 2 →
     box_width (rect g) = 2 ∧ box_height (rect g) = 2) ∧
  ∃ scrambled restored,
    scramble_with gen (Some square4) 2 = Ok (scrambled, permutation) ∧
    block_unscramble (Some scrambled) (KeyJson permutation) 2 = Ok restored ∧
    img_eq restored square4 ∧
    to_rows restored = to_rows square4.
Proof.
  apply (roundtrip_even_blocks (λ x, (Random.shuffle x [1; 0; 0]).1) square4 2 2 2);
    [lia|reflexivity|reflexivity|compute_done].
Defined.

(** The same for the shuffle the script uses, whatever the state of the
    random generator. *)
Lemma roundtrip_even_blocks_shuffle img block_size cols rows s :
  1 ≤ block_size →
  (size img).1 = cols * block_size →
  (size img).2 = rows * block_size →
  ∃ restored, roundtrip img block_size s = Ok restored ∧ img_eq restored img.
Proof.
  intros Hb Hw Hh. assert (0 < block_size) as Hbp by lia.
  assert (0 ≤ cols ∧ 0 ≤ rows) as [Hc Hr].
  { unfold size in *. simpl in *. nia. }
  pose proof (shuffle_permutation (Py.range (cols * rows)) s) as Hperm.
  destruct (roundtrip_shape_preserving (λ x, (Random.shuffle x s).1)
              img block_size cols rows Hbp)
    as (scrambled & restored & Hs & _ & Hu & Heq).
  - rewrite Hw. by apply even_ceil_div.
  - rewrite Hh. by apply even_ceil_div.
  - rewrite Hw. lia.
  - rewrite Hh. lia.
  - done.
  - rewrite Hw, Hh. apply even_shape_preserving; try done.
    intros k Hk. by apply (permutation_of_range_facts _ _ Hperm).
  - exists restored. split; [|done].
    unfold roundtrip, block_scramble. rewrite Hs. exact Hu.
Qed.

(** ** The key check and the assignments of the two loops *)

Lemma block_unscramble_checked img (permutation : list Z) block_size cols rows :
  0 < block_size →
  Py.ceil_div (size img).1 block_size = Ok cols →
  Py.ceil_div (size img).2 block_size = Ok rows →
  Py.len permutation = cols * rows →
  block_unscramble (Some img) (KeyJson permutation) block_size =
  (ordered ← reconstruct permutation (scrambled_blocks img block_size cols rows);
   unscramble_composite (size img) block_size cols rows ordered).
Proof.
  intros Hb Ec Er Hlen.
  destruct (grid_nonneg img block_size cols rows Hb Ec Er) as [Hc Hr].
  rewrite (block_unscramble_eq img permutation block_size cols rows Ec Er).
  cbv zeta. rewrite scrambled_blocks_original.
  rewrite (original_blocks_length img block_size cols rows Hc Hr).
  by replace (Py.len permutation =? cols * rows) with true by lia.
Qed.




Lemma reconstruct_step_assigns (permutation : list Z) (blocks : list image)
    (acc : list (option image)) k p blk :
  0 ≤ k → permutation !! Z.to_nat k = Some p → blocks !! Z.to_nat k = Some blk →
  0 ≤ p < Py.len acc →
  reconstruct_step permutation blocks (Ok acc) k
    = Ok (<[Z.to_nat p:=Some blk]> acc).
Proof.
  intros Hk Hp Hblk Hpr. unfold reconstruct_step. simpl.
  rewrite (get_lookup permutation k p) by done. simpl.
  rewrite (get_lookup blocks k blk) by done. simpl.
  by apply set_insert.
Qed.

Lemma reconstruct_bijective (permutation : list Z) (blocks : list image) :
  permutation ≡ₚ Py.range (Py.len blocks) →
  ∃ ordered,
    reconstruct permutation blocks = Ok ordered ∧
    length ordered = length blocks ∧
    ∀ k p blk, permutation !! k = Some p → blocks !! k = Some blk →
      ordered !! Z.to_nat p = Some (Some blk).
Proof.
  intros Hperm.
  destruct (permutation_of_range_facts _ _ Hperm) as (Hnd & Hplen & Hpin).
  pose proof (permutation_key_fits _ _ Hperm) as Hfit.
  destruct (reconstruct_ok _ _ Hfit) as (ordered & Hrec & Hol & Hslots).
  exists ordered. split; [done|]. split; [done|].
  intros k p blk Hp Hblk.
  assert (0 ≤ p < Py.len blocks) as Hpr.
  { apply Hpin. by eapply list_elem_of_lookup_2. }
  destruct (Hslots (Z.to_nat p)) as (slot & Hslot & Hafter);
    [unfold Py.len in Hpr; lia|].
  rewrite Hslot. f_equal.
  destruct slot as [b|]; simpl in Hafter; rewrite Z2Nat.id in Hafter by lia.
  - destruct Hafter as (k' & _ & Hp' & Hb' & _).
    assert (k' = k) as -> by (by eapply NoDup_lookup). congruence.
  - exfalso. apply (Hafter k); [by eapply lookup_lt_Some|done].
Qed.

(** The blocks handed to [paste] and to the slots.  The scrambler pastes,
    at the corner of grid position [g], the original block of index
    [permutation[g]], for every [g] below the block count.  The unscrambler
    does the inverse assignment: step [k] of its loop stores scrambled block
    [k] in slot [permutation[k]], and when the loop ends slot
    [permutation[k]] holds scrambled block [k] for every [k]; those slots
    are what is then composited in index order. *)
Theorem permutation_assignment gen img scrambled block_size cols rows :
  0 < block_size →
  Py.ceil_div (size img).1 block_size = Ok cols →
  Py.ceil_div (size img).2 block_size = Ok rows →
  size scrambled = size img →
  gen (Py.range (cols * rows)) ≡ₚ Py.range (cols * rows) →
  let permutation := gen (Py.range (cols * rows)) in
  let orig := original_blocks img block_size cols rows in
  let scr := scrambled_blocks scrambled block_size cols rows in
  (∃ ps,
     scramble_with gen (Some img) block_size
       = Ok (paste_all (Image_new (size img)) ps, permutation) ∧
     length ps = Z.to_nat (cols * rows) ∧
     ∀ g, 0 ≤ g < cols * rows →
       ∃ p blk, permutation !! Z.to_nat g = Some p ∧
                orig !! Z.to_nat p = Some blk ∧
                ps !! Z.to_nat g =
                  Some (blk, (g `mod` cols * block_size,
                              g / cols * block_size))) ∧
  (∀ acc k p blk,
     0 ≤ k → permutation !! Z.to_nat k = Some p → scr !! Z.to_nat k = Some blk →
     0 ≤ p < Py.len acc →
     reconstruct_step permutation scr (Ok acc) k
       = Ok (<[Z.to_nat p:=Some blk]> acc)) ∧
  (∃ ordered,
     reconstruct permutation scr = Ok ordered ∧
     length ordered = Z.to_nat (cols * rows) ∧
     (∀ k p blk, permutation !! k = Some p → scr !! k = Some blk →
        ordered !! Z.to_nat p = Some (Some blk)) ∧
     block_unscramble (Some scrambled) (KeyJson permutation) block_size
       = unscramble_composite (size scrambled) block_size cols rows ordered).
Proof.
  intros Hb Ec Er Hsz Hperm permutation orig scr.
  destruct (grid_nonneg img block_size cols rows Hb Ec Er) as [Hc Hr].
  split; [|split].
  - destruct (scramble_run gen img block_size cols rows Hb Ec Er Hperm)
      as (ps & Hs & Hl & Hps).
    exists ps. split; [done|]. split; [done|].
    intros g Hg. destruct (Hps g Hg) as (p & Hp & _ & Hblk & Hg').
    by eexists p, _.
  - intros acc k p blk. apply reconstruct_step_assigns.
  - assert (Py.len scr = cols * rows) as Hlen.
    { unfold scr. rewrite scrambled_blocks_original.
      by apply original_blocks_length. }
    destruct (reconstruct_bijective permutation scr)
      as (ordered & Hrec & Hol & Hslots); [by rewrite Hlen|].
    exists ordered. split; [done|]. split; [unfold Py.len in Hlen; lia|].
    split; [done|].
    rewrite (block_unscramble_checked scrambled permutation block_size cols rows);
      try (by rewrite Hsz); [|done|].
    + fold scr. by rewrite Hrec.
    + destruct (permutation_of_range_facts _ _ Hperm) as (_ & Hplen & _).
      fold permutation in Hplen. unfold Py.len. nia.
Qed.

Lemma permutation_assignment_square4 :
  let gen := λ x : list Z, (Random.shuffle x [1; 0; 0]).1 in
  let permutation := gen (Py.range (2 * 2)) in
  let orig := original_blocks square4 2 2 2 in
  let scr := scrambled_blocks square4 2 2 2 in
  (∃ ps,
     scramble_with gen (Some square4) 2
       = Ok (paste_all (Image_new (size square4)) ps, permutation) ∧
     length ps = Z.to_nat (2 * 2) ∧
     ∀ g, 0 ≤ g < 2 * 2 →
       ∃ p blk, permutation !! Z.to_nat g = Some p ∧
                orig !! Z.to_nat p = Some blk ∧
                ps !! Z.to_nat g =
                  Some (blk, (g `mod` 2 * 2, g / 2 * 2))) ∧
  (∀ acc k p blk,
     0 ≤ k → permutation !! Z.to_nat k = Some p → scr !! Z.to_nat k = Some blk →
     0 ≤ p < Py.len acc →
     reconstruct_step permutation scr (Ok acc) k
       = Ok (<[Z.to_nat p:=Some blk]> acc)) ∧
  (∃ ordered,
     reconstruct permutation scr = Ok ordered ∧
     length ordered = Z.to_nat (2 * 2) ∧
     (∀ k p blk, permutation !! k = Some p → scr !! k = Some blk →
        ordered !! Z.to_nat p = Some (Some blk)) ∧
     block_unscramble (Some square4) (KeyJson permutation) 2
       = unscramble_composite (size square4) 2 2 2 ordered).
Proof.
  apply (permutation_assignment (λ x, (Random.shuffle x [1; 0; 0]).1)
           square4 square4 2 2 2);
    [lia|reflexivity|reflexivity|reflexivity|compute_done].
Defined.

(** ** Keys with repeated entries *)

(** The final paste loop either pastes every slot up to [t], or has met an
    empty slot and raised. *)
Lemma unscramble_loop_outcome (ordered : list (option image))
    block_size cols init t :
  0 < cols → (t ≤ length ordered)%nat →
  let run :=
    foldl (λ acc g, unscramble_step ordered block_size acc
                                    (g / cols, g `mod` cols))
          (Ok (init, 0)) (Py.range (Z.of_nat t)) in
  (∃ unscrambled_img,
     run = Ok (unscrambled_img, Z.of_nat t) ∧
     ∀ m, (m < t)%nat → ∃ blk, ordered !! m = Some (Some blk)) ∨
  (run = Err (Unexpected ValueError) ∧
   ∃ m, (m < t)%nat ∧ ordered !! m = Some None).
Proof.
  intros Hc. induction t as [|t IH]; intros Ht run.
  { left. exists init. split; [done|]. intros m Hm. lia. }
  subst run. rewrite range_snoc, foldl_snoc.
  destruct IH as [(im & -> & Hfull)|(-> & m & Hm & Hnone)]; [lia| |].
  - destruct (lookup_lt_is_Some_2 ordered t) as [slot Hslot]; [lia|].
    unfold unscramble_step. simpl.
    destruct (Z.of_nat t <? Py.len ordered) eqn:E;
      [|unfold Py.len in E; lia].
    rewrite (get_lookup ordered (Z.of_nat t) slot)
      by (lia || by rewrite Nat2Z.id). simpl.
    destruct slot as [blk|].
    + left. replace (Z.of_nat (S t)) with (Z.of_nat t + 1) by lia.
      eexists. split; [reflexivity|].
      intros m Hm. destruct (decide (m = t)) as [->|]; [by exists blk|].
      apply Hfull. lia.
    + right. split; [done|]. exists t. split; [lia|done].
  - right. split; [done|]. exists m. split; [lia|done].
Qed.

Lemma unscramble_composite_empty_slot wh block_size cols rows
    (ordered : list (option image)) m :
  0 ≤ cols → Py.len ordered = rows * cols → ordered !! m = Some None →
  unscramble_composite wh block_size cols rows ordered
    = Err (Unexpected ValueError).
Proof.
  intros Hc0 Hn Hm. pose proof (lookup_lt_Some _ _ _ Hm) as Hlt.
  assert (0 < cols) as Hc.
  { unfold Py.len in Hn. destruct (decide (cols = 0)) as [->|]; lia. }
  unfold unscramble_composite.
  rewrite grid_positions_flat, foldl_fmap by done. rewrite <- Hn.
  destruct (unscramble_loop_outcome ordered block_size cols (Image_new wh)
              (length ordered) Hc) as [(im & _ & Hfull)|(Hrun & _)]; [lia| |].
  - destruct (Hfull m Hlt) as [blk Hblk]. congruence.
  - unfold Py.len. by rewrite Hrun.
Qed.

(** The compositing loop ends with a buffer or with the ValueError of an
    empty slot, nothing else. *)
Lemma unscramble_composite_outcome wh block_size cols rows
    (ordered : list (option image)) :
  0 ≤ cols → 0 ≤ rows → Py.len ordered = rows * cols →
  (∃ unscrambled_img,
     unscramble_composite wh block_size cols rows ordered = Ok unscrambled_img) ∨
  unscramble_composite wh block_size cols rows ordered
    = Err (Unexpected ValueError).
Proof.
  intros Hc0 Hr Hn. unfold unscramble_composite.
  destruct (decide (cols = 0)) as [->|Hne].
  { left. rewrite grid_positions_empty by lia. by eexists. }
  assert (0 < cols) as Hc by lia.
  rewrite grid_positions_flat, foldl_fmap by done. rewrite <- Hn.
  destruct (unscramble_loop_outcome ordered block_size cols (Image_new wh)
              (length ordered) Hc) as [(im & Hrun & _)|(Hrun & _)]; [lia| |].
  - left. exists im. unfold Py.len. by rewrite Hrun.
  - right. unfold Py.len. by rewrite Hrun.
Qed.

(** A key of the right length with entries in range and a repeated entry
    leaves some index out. *)
Lemma repeated_entry_omits {A} (permutation : list Z) (blocks : list A) :
  key_fits permutation blocks → ¬ NoDup permutation →
  ∃ m, (m < length blocks)%nat ∧ Z.of_nat m ∉ permutation.
Proof.
  intros [Hlen Hin] Hdup.
  destruct (decide (Forall (λ m, m ∈ permutation) (Py.range (Py.len blocks))))
    as [Hall|Hnot].
  - exfalso. apply Hdup.
    assert (Py.range (Py.len blocks) ≡ₚ permutation) as <-;
      [|apply NoDup_seqZ].
    apply submseteq_length_Permutation.
    + apply NoDup_submseteq; [apply NoDup_seqZ|].
      intros x Hx. apply list_elem_of_lookup in Hx as [i Hi].
      by apply (Forall_lookup_1 _ _ i x Hall).
    + rewrite range_length. unfold Py.len. lia.
  - apply not_Forall_Exists in Hnot; [|apply _].
    apply Exists_exists in Hnot as (m & Hm & Hout).
    apply list_elem_of_In, elem_of_seqZ in Hm. exists (Z.to_nat m).
    unfold Py.len in Hm. split; [lia|]. by rewrite Z2Nat.id by lia.
Qed.

(** C9.  A key of the right length whose entries lie in [0, BlockCount)
    passes the only check [block_unscramble] makes, repeated entries or not:
    the reconstruction loop runs to its end without an error, each slot
    keeping the block of the last entry that names it and the slots no entry
    names staying empty, and the result is handed to the compositing loop.
    No error about the key is reported; when an entry is repeated the
    compositing loop then meets an empty slot. *)
Theorem repeated_key_entries_not_rejected img (permutation : list Z)
    block_size cols rows :
  0 < block_size →
  Py.ceil_div (size img).1 block_size = Ok cols →
  Py.ceil_div (size img).2 block_size = Ok rows →
  Py.len permutation = cols * rows →
  (∀ k, k ∈ permutation → 0 ≤ k < cols * rows) →
  let scr := scrambled_blocks img block_size cols rows in
  ∃ ordered,
    reconstruct permutation scr = Ok ordered ∧
    length ordered = Z.to_nat (cols * rows) ∧
    (∀ m, 0 ≤ Z.of_nat m < cols * rows →
       ∃ slot, ordered !! m = Some slot ∧
               slot_after permutation scr (length permutation) m slot) ∧
    block_unscramble (Some img) (KeyJson permutation) block_size
      = unscramble_composite (size img) block_size cols rows ordered ∧
    block_unscramble (Some img) (KeyJson permutation) block_size
      ≠ Err KeySizeMismatch ∧
    (¬ NoDup permutation →
       (∃ m, 0 ≤ Z.of_nat m < cols * rows ∧ ordered !! m = Some None) ∧
       block_unscramble (Some img) (KeyJson permutation) block_size
         = Err (Unexpected ValueError)).
Proof.
  intros Hb Ec Er Hlen Hin scr.
  destruct (grid_nonneg img block_size cols rows Hb Ec Er) as [Hc Hr].
  assert (Py.len scr = cols * rows) as Hn.
  { unfold scr. rewrite scrambled_blocks_original.
    by apply original_blocks_length. }
  assert (key_fits permutation scr) as Hfit.
  { split; [unfold Py.len in *; lia|]. intros k Hk. rewrite Hn. by apply Hin. }
  destruct (reconstruct_ok _ _ Hfit) as (ordered & Hrec & Hol & Hslots).
  assert (block_unscramble (Some img) (KeyJson permutation) block_size
          = unscramble_composite (size img) block_size cols rows ordered)
    as Hrun.
  { rewrite (block_unscramble_checked img permutation block_size cols rows)
      by done. fold scr. by rewrite Hrec. }
  assert (∀ m slot, ordered !! m = Some slot →
            unscramble_composite (size img) block_size cols rows ordered
              = Err (Unexpected ValueError) ∨ slot ≠ None) as Hcases.
  { intros m [blk|] Hm; [by right|left].
    apply (unscramble_composite_empty_slot _ _ _ _ _ m); try done.
    unfold Py.len in *. lia. }
  exists ordered. split; [done|]. split; [unfold Py.len in Hn; lia|].
  split; [|split; [done|split]].
  - intros m Hm. apply Hslots. unfold Py.len in Hn. lia.
  - rewrite Hrun.
    destruct (unscramble_composite_outcome (size img) block_size cols rows
                ordered Hc Hr) as [[im ->]| ->]; [|done|done].
    unfold Py.len in *. lia.
  - intros Hdup.
    destruct (repeated_entry_omits permutation scr Hfit Hdup) as (m & Hm & Hout).
    destruct (Hslots m Hm) as (slot & Hslot & Hafter).
    assert (slot = None) as ->.
    { destruct slot as [blk|]; [|done]. simpl in Hafter.
      destruct Hafter as (k & _ & Hk & _). exfalso. apply Hout.
      by eapply list_elem_of_lookup_2. }
    split.
    + exists m. split; [unfold Py.len in Hn; lia|done].
    + rewrite Hrun. destruct (Hcases m None Hslot); done.
Qed.

Lemma repeated_key_entries_not_rejected_square4 :
  let scr := scrambled_blocks square4 2 2 2 in
  ∃ ordered,
    reconstruct [0; 0; 3; 1] scr = Ok ordered ∧
    length ordered = Z.to_nat (2 * 2) ∧
    (∀ m, 0 ≤ Z.of_nat m < 2 * 2 →
       ∃ slot, ordered !! m = Some slot ∧
               slot_after [0; 0; 3; 1] scr (length [0; 0; 3; 1]) m slot) ∧
    block_unscramble (Some square4) (KeyJson [0; 0; 3; 1]) 2
      = unscramble_composite (size square4) 2 2 2 ordered ∧
    block_unscramble (Some square4) (KeyJson [0; 0; 3; 1]) 2
      ≠ Err KeySizeMismatch ∧
    (¬ NoDup [0; 0; 3; 1] →
       (∃ m, 0 ≤ Z.of_nat m < 2 * 2 ∧ ordered !! m = Some None) ∧
       block_unscramble (Some square4) (KeyJson [0; 0; 3; 1]) 2
         = Err (Unexpected ValueError)).
Proof.
  apply (repeated_key_entries_not_rejected square4 [0; 0; 3; 1] 2 2 2);
    [lia|reflexivity|reflexivity|reflexivity|].
  intros k Hk. repeat (apply elem_of_cons in Hk as [->|Hk]; [lia|]).
  by apply elem_of_nil in Hk.
Defined.

(** ** Ragged grids *)

(** C1, on a 3 x 1 buffer with block size 2: two blocks, of widths 2 and 1.
    When the shuffle exchanges them, the narrow block leaves the second
    pixel of the wide rectangle blank and the wide block is clipped at the
    right edge; unscrambling cannot recover the middle pixel. *)
Theorem roundtrip_ragged_loses_pixel :
  to_rows strip3 = [[(1, 1, 1); (2, 2, 2); (3, 3, 3)]] ∧
  (Random.shuffle (Py.range 2) [0]).1 = [1; 0] ∧
  rows_of fst (block_scramble (Some strip3) 2 [0])
    = Ok [[(3, 3, 3); (0, 0, 0); (1, 1, 1)]] ∧
  rows_of id (roundtrip strip3 2 [0])
    = Ok [[(1, 1, 1); (0, 0, 0); (3, 3, 3)]].
Proof. repeat split; vm_compute; reflexivity. Qed.

(** C2, on the same input, where the key drawn is [[1, 0]].  Original block
    0 is the pixels (1,1,1), (2,2,2) and original block 1 the pixel (3,3,3).
    In the scrambled buffer the rectangle of grid index 0, two pixels wide,
    holds (3,3,3) and a black pixel, which is not the content of block
    [permutation[0] = 1]; the rectangle of grid index 1, one pixel wide,
    holds (1,1,1), which is not the content of block [permutation[1] = 0]. *)
Theorem scramble_misplaces_ragged_blocks :
  ∃ scrambled,
    block_scramble (Some strip3) 2 [0] = Ok (scrambled, [1; 0]) ∧
    to_rows (crop strip3 (block_rect 3 1 2 2 0)) = [[(1, 1, 1); (2, 2, 2)]] ∧
    to_rows (crop strip3 (block_rect 3 1 2 2 1)) = [[(3, 3, 3)]] ∧
    to_rows (crop scrambled (block_rect 3 1 2 2 0)) = [[(3, 3, 3); (0, 0, 0)]] ∧
    to_rows (crop scrambled (block_rect 3 1 2 2 1)) = [[(1, 1, 1)]].
Proof.
  eexists. split; [reflexivity|]. repeat split; vm_compute; reflexivity.
Qed.

(** C8, as stated, fails: on the same buffer the scrambler pastes a 1 x 1
    block on a 2 x 1 rectangle and a 2 x 1 block on a 1 x 1 rectangle, and
    returns a buffer all the same. *)
Lemma mismatched_paste_not_rejected :
  size <$> original_blocks strip3 2 2 1 = [(2, 1); (1, 1)] ∧
  (Random.shuffle (Py.range 2) [0]).1 = [1; 0] ∧
  block_rect 3 1 2 2 0 = (0, 0, 2, 1) ∧
  block_rect 3 1 2 2 1 = (2, 0, 3, 1) ∧
  is_ok (block_scramble (Some strip3) 2 [0]) = true ∧
  rows_of fst (block_scramble (Some strip3) 2 [0])
    = Ok [[(3, 3, 3); (0, 0, 0); (1, 1, 1)]].
Proof. repeat split; vm_compute; reflexivity. Qed.

(** C8, amended.  Compositing makes no shape check: for every buffer, every
    block size of at least 1 and every permutation drawn, the scrambler
    succeeds, having pasted one block at the top-left corner of each
    rectangle, and the unscrambler succeeds with that key; no failure is
    reported.  When the block size divides both dimensions, the block moved
    onto a rectangle always has that rectangle's shape. *)
Theorem compositing_has_no_shape_check gen img block_size cols rows :
  0 < block_size →
  Py.ceil_div (size img).1 block_size = Ok cols →
  Py.ceil_div (size img).2 block_size = Ok rows →
  gen (Py.range (cols * rows)) ≡ₚ Py.range (cols * rows) →
  let permutation := gen (Py.range (cols * rows)) in
  let rect := block_rect (size img).1 (size img).2 block_size cols in
  (∃ ps,
     scramble_with gen (Some img) block_size
       = Ok (paste_all (Image_new (size img)) ps, permutation) ∧
     ∀ g, 0 ≤ g < cols * rows →
       ∃ blk, ps !! Z.to_nat g = Some (blk, box_corner (rect g))) ∧
  (∃ restored,
     block_unscramble (Some img) (KeyJson permutation) block_size
       = Ok restored) ∧
  ((size img).1 = cols * block_size → (size img).2 = rows * block_size →
   ∀ g p, 0 ≤ g < cols * rows → permutation !! Z.to_nat g = Some p →
     same_shape (rect p) (rect g)).
Proof.
  intros Hb Ec Er Hperm permutation rect.
  destruct (grid_nonneg img block_size cols rows Hb Ec Er) as [Hc Hr].
  split; [|split].
  - destruct (scramble_run gen img block_size cols rows Hb Ec Er Hperm)
      as (ps & Hs & _ & Hps).
    exists ps. split; [done|]. intros g Hg.
    destruct (Hps g Hg) as (p & _ & _ & _ & Hg'). by eexists.
  - destruct (unscramble_run permutation img block_size cols rows Hb Ec Er Hperm)
      as (ps & Hu & _). by eexists.
  - intros Hw Hh. unfold rect. rewrite Hw, Hh.
    apply even_shape_preserving; try done.
    intros k Hk. by apply (permutation_of_range_facts _ _ Hperm).
Qed.

Lemma compositing_has_no_shape_check_strip3 :
  let gen := λ x : list Z, (Random.shuffle x [0]).1 in
  let permutation := gen (Py.range (2 * 1)) in
  let rect := block_rect (size strip3).1 (size strip3).2 2 2 in
  (∃ ps,
     scramble_with gen (Some strip3) 2
       = Ok (paste_all (Image_new (size strip3)) ps, permutation) ∧
     ∀ g, 0 ≤ g < 2 * 1 →
       ∃ blk, ps !! Z.to_nat g = Some (blk, box_corner (rect g))) ∧
  (∃ restored,
     block_unscramble (Some strip3) (KeyJson permutation) 2 = Ok restored) ∧
  ((size strip3).1 = 2 * 2 → (size strip3).2 = 1 * 2 →
   ∀ g p, 0 ≤ g < 2 * 1 → permutation !! Z.to_nat g = Some p →
     same_shape (rect p) (rect g)).
Proof.
  apply (compositing_has_no_shape_check (λ x, (Random.shuffle x [0]).1)
           strip3 2 2 1);
    [lia|reflexivity|reflexivity|compute_done].
Defined.

(** ** Non-positive block sizes *)




(** * Further properties of the two operations *)

(** ** Pixels of the scrambled and of the restored buffer *)

(** Where the scrambler takes each pixel of its output from, for a key that
    keeps shapes. *)
Lemma scrambled_pixel_source gen img block_size cols rows :
  0 < block_size →
  Py.ceil_div (size img).1 block_size = Ok cols →
  Py.ceil_div (size img).2 block_size = Ok rows →
  (cols - 1) * block_size < (size img).1 ≤ cols * block_size →
  (rows - 1) * block_size < (size img).2 ≤ rows * block_size →
  gen (Py.range (cols * rows)) ≡ₚ Py.range (cols * rows) →
  shape_preserving (size img).1 (size img).2 block_size cols rows
                   (gen (Py.range (cols * rows))) →
  ∃ scrambled,
    scramble_with gen (Some img) block_size
      = Ok (scrambled, gen (Py.range (cols * rows))) ∧
    size scrambled = size img ∧
    ∀ x y, 0 ≤ x < (size img).1 → 0 ≤ y < (size img).2 →
      let g := block_of block_size cols x y in
      ∃ p, gen (Py.range (cols * rows)) !! Z.to_nat g = Some p ∧
           0 ≤ p < cols * rows ∧
           let x' := p `mod` cols * block_size + (x - g `mod` cols * block_size) in
           let y' := p / cols * block_size + (y - g / cols * block_size) in
           0 ≤ x' < (size img).1 ∧ 0 ≤ y' < (size img).2 ∧
           getpixel scrambled x y = getpixel img x' y'.
Proof.
  intros Hb Ec Er Hc Hr Hperm Hshape.
  destruct (scramble_run gen img block_size cols rows Hb Ec Er Hperm)
    as (ps & Hs & Hl & Hps).
  exists (paste_all (Image_new (size img)) ps).
  split; [done|]. split; [by rewrite paste_all_size, size_Image_new|].
  intros x y Hx Hy g.
  set (w := (size img).1) in *. set (h := (size img).2) in *.
  assert (0 < w) as Hw by lia. assert (0 < h) as Hh by lia.
  pose proof (block_of_range w h block_size cols rows Hw Hh Hb Hc Hr x y Hx Hy)
    as Hgr. fold g in Hgr.
  destruct (Hps g Hgr) as (p & Hp & Hpr & _ & Hg).
  exists p. split; [done|]. split; [done|].
  destruct (composite_pixel w h block_size cols rows Hw Hh Hb Hc Hr
              img (Image_new (size img)) ps x y p) as [Hpix Hin]; try done.
  { intros g' Hg'. destruct (Hps g' Hg') as (p' & Hp' & Hpr' & _ & Hg1').
    exists p'. split; [done|]. split; [|done]. apply (Hshape g' p' Hg' Hp'). }
  { apply (Hshape g p Hgr Hp). }
  fold g in Hpix, Hin. intros x' y'. fold x' y' in Hpix, Hin.
  assert (0 ≤ x' < w ∧ 0 ≤ y' < h) as [Hx' Hy'].
  { apply (in_rect_iff w h block_size cols rows Hw Hh Hb Hc Hr) in Hin.
    destruct (grid_index_split w h block_size cols rows Hw Hh Hb Hc Hr p Hpr).
    nia. }
  split; [done|]. split; [done|].
  rewrite Hpix. by apply pixel_at_in_bounds.
Qed.

(** Where the unscrambler takes each pixel of its output from, for a key
    that keeps shapes. *)
Lemma restored_pixel_source (permutation : list Z) img block_size cols rows :
  0 < block_size →
  Py.ceil_div (size img).1 block_size = Ok cols →
  Py.ceil_div (size img).2 block_size = Ok rows →
  (cols - 1) * block_size < (size img).1 ≤ cols * block_size →
  (rows - 1) * block_size < (size img).2 ≤ rows * block_size →
  permutation ≡ₚ Py.range (cols * rows) →
  shape_preserving (size img).1 (size img).2 block_size cols rows permutation →
  ∃ restored,
    block_unscramble (Some img) (KeyJson permutation) block_size = Ok restored ∧
    size restored = size img ∧
    ∀ x y, 0 ≤ x < (size img).1 → 0 ≤ y < (size img).2 →
      let g := block_of block_size cols x y in
      ∃ k, permutation !! Z.to_nat k = Some g ∧
           0 ≤ k < cols * rows ∧
           let x' := k `mod` cols * block_size + (x - g `mod` cols * block_size) in
           let y' := k / cols * block_size + (y - g / cols * block_size) in
           0 ≤ x' < (size img).1 ∧ 0 ≤ y' < (size img).2 ∧
           getpixel restored x y = getpixel img x' y'.
Proof.
  intros Hb Ec Er Hc Hr Hperm Hshape.
  destruct (unscramble_run permutation img block_size cols rows Hb Ec Er Hperm)
    as (ps & Hu & Hl & Hps).
  exists (paste_all (Image_new (size img)) ps).
  split; [done|]. split; [by rewrite paste_all_size, size_Image_new|].
  intros x y Hx Hy g.
  set (w := (size img).1) in *. set (h := (size img).2) in *.
  assert (0 < w) as Hw by lia. assert (0 < h) as Hh by lia.
  pose proof (block_of_range w h block_size cols rows Hw Hh Hb Hc Hr x y Hx Hy)
    as Hgr. fold g in Hgr.
  destruct (Hps g Hgr) as (k & Hk & Hpk & Hg).
  exists k. split; [done|]. split; [done|].
  destruct (composite_pixel w h block_size cols rows Hw Hh Hb Hc Hr
              img (Image_new (size img)) ps x y k) as [Hpix Hin]; try done.
  { intros g' Hg'. destruct (Hps g' Hg') as (k' & Hk' & Hpk' & Hg1').
    exists k'. split; [done|]. split; [|done].
    apply same_shape_sym, (Hshape k' g' Hk' Hpk'). }
  { apply same_shape_sym, (Hshape k g Hk Hpk). }
  fold g in Hpix, Hin. intros x' y'. fold x' y' in Hpix, Hin.
  assert (0 ≤ x' < w ∧ 0 ≤ y' < h) as [Hx' Hy'].
  { apply (in_rect_iff w h block_size cols rows Hw Hh Hb Hc Hr) in Hin.
    destruct (grid_index_split w h block_size cols rows Hw Hh Hb Hc Hr k Hk).
    nia. }
  split; [done|]. split; [done|].
  rewrite Hpix. by apply pixel_at_in_bounds.
Qed.

Lemma block_of_offsets width block_size cols x y :
  0 < block_size → 0 ≤ x < width → width ≤ cols * block_size →
  let g := block_of block_size cols x y in
  x - g `mod` cols * block_size = x `mod` block_size ∧
  y - g / cols * block_size = y `mod` block_size.
Proof.
  intros Hb Hx Hc g.
  assert (0 ≤ x / block_size < cols) as Hj.
  { split; [apply Z.div_pos; lia|]. apply Z.div_lt_upper_bound; nia. }
  unfold g, block_of.
  destruct (row_major_div_mod cols (y / block_size) (x / block_size) Hj)
    as [-> ->].
  rewrite (Z.mod_eq x block_size), (Z.mod_eq y block_size) by lia. lia.
Qed.

(** ** The grid, for block sizes below 2^1075 *)

(** X17.  The grid of both operations, for a block size below 2^1075 (where a
    quotient of positive integers cannot round to zero).  On buffers of
    positive dimensions [width] x [height], [block_scramble] and
    [block_unscramble] run their loops over the same grid, of
    [cols = ceil(width / block_size)] columns and
    [rows = ceil(height / block_size)] rows; each extraction loop yields
    [cols * rows] blocks, and the block with linear index [g] is the crop of
    the rectangle with [left = col * block_size], [top = row * block_size],
    [right = min((col + 1) * block_size, width)],
    [bottom = min((row + 1) * block_size, height)], where [col = g % cols]
    and [row = g / cols]. *)
Theorem grid_geometry gen (permutation : list Z) img other width height
    block_size :
  size img = (width, height) → size other = (width, height) →
  0 < width → 0 < height → 0 < block_size → block_size < 2 ^ 1075 →
  ∃ cols rows,
    (cols - 1) * block_size < width ≤ cols * block_size ∧
    (rows - 1) * block_size < height ≤ rows * block_size ∧
    scramble_with gen (Some img) block_size =
      (let blocks := original_blocks img block_size cols rows in
       let permutation := gen (Py.range (Py.len blocks)) in
       scrambled_img ←
         foldl (scramble_step blocks permutation block_size cols)
               (Ok (Image_new (width, height))) (grid_positions rows cols);
       mret (scrambled_img, permutation)) ∧
    block_unscramble (Some other) (KeyJson permutation) block_size =
      (let blocks := scrambled_blocks other block_size cols rows in
       if negb (Py.len permutation =? Py.len blocks) then Err KeySizeMismatch
       else
         unscrambled_blocks_ordered ← reconstruct permutation blocks;
         unscramble_composite (width, height) block_size cols rows
                              unscrambled_blocks_ordered) ∧
    Py.len (grid_positions rows cols) = cols * rows ∧
    Py.len (original_blocks img block_size cols rows) = cols * rows ∧
    Py.len (scrambled_blocks other block_size cols rows) = cols * rows ∧
    ∀ g, 0 ≤ g < cols * rows →
      let col := g `mod` cols in
      let row := g / cols in
      let rectangle :=
        (col * block_size, row * block_size,
         Z.min ((col + 1) * block_size) width,
         Z.min ((row + 1) * block_size) height) in
      grid_positions rows cols !! Z.to_nat g = Some (row, col) ∧
      original_blocks img block_size cols rows !! Z.to_nat g
        = Some (crop img rectangle) ∧
      scrambled_blocks other block_size cols rows !! Z.to_nat g
        = Some (crop other rectangle).
Proof.
  intros Himg Hother Hw Hh Hb Hsmall.
  destruct (ceil_div_spec width block_size Hb Hsmall) as (cols & Ec & Hc).
  destruct (ceil_div_spec height block_size Hb Hsmall) as (rows & Er & Hr).
  assert (0 < cols) as Hcp by nia. assert (0 < rows) as Hrp by nia.
  exists cols, rows. split; [done|]. split; [done|]. split; [|split].
  - rewrite <- Himg. apply scramble_with_eq; by rewrite Himg.
  - rewrite <- Hother. apply block_unscramble_eq; by rewrite Hother.
  - rewrite grid_positions_flat by done.
    split; [unfold Py.len; rewrite length_fmap, range_length; nia|].
    split; [apply original_blocks_length; lia|].
    split; [apply (original_blocks_length other); lia|].
    intros g Hg col row rectangle. split; [|split].
    + rewrite list_lookup_fmap, range_lookup by lia. done.
    + rewrite original_blocks_lookup by lia. by rewrite Himg.
    + rewrite scrambled_blocks_original, original_blocks_lookup by lia.
      by rewrite Hother.
Qed.

Lemma grid_geometry_square4 :
  ∃ cols rows,
    (cols - 1) * 2 < 4 ≤ cols * 2 ∧
    (rows - 1) * 2 < 4 ≤ rows * 2 ∧
    scramble_with reverse (Some square4) 2 =
      (let blocks := original_blocks square4 2 cols rows in
       let permutation := reverse (Py.range (Py.len blocks)) in
       scrambled_img ←
         foldl (scramble_step blocks permutation 2 cols)
               (Ok (Image_new (4, 4))) (grid_positions rows cols);
       mret (scrambled_img, permutation)) ∧
    block_unscramble (Some square4) (KeyJson [3; 2; 1; 0]) 2 =
      (let blocks := scrambled_blocks square4 2 cols rows in
       if negb (Py.len [3; 2; 1; 0] =? Py.len blocks) then Err KeySizeMismatch
       else
         unscrambled_blocks_ordered ← reconstruct [3; 2; 1; 0] blocks;
         unscramble_composite (4, 4) 2 cols rows unscrambled_blocks_ordered) ∧
    Py.len (grid_positions rows cols) = cols * rows ∧
    Py.len (original_blocks square4 2 cols rows) = cols * rows ∧
    Py.len (scrambled_blocks square4 2 cols rows) = cols * rows ∧
    ∀ g, 0 ≤ g < cols * rows →
      let col := g `mod` cols in
      let row := g / cols in
      let rectangle :=
        (col * 2, row * 2, Z.min ((col + 1) * 2) 4, Z.min ((row + 1) * 2) 4) in
      grid_positions rows cols !! Z.to_nat g = Some (row, col) ∧
      original_blocks square4 2 cols rows !! Z.to_nat g
        = Some (crop square4 rectangle) ∧
      scrambled_blocks square4 2 cols rows !! Z.to_nat g
        = Some (crop square4 rectangle).
Proof.
  apply (grid_geometry reverse [3; 2; 1; 0] square4 square4 4 4 2);
    [reflexivity|reflexivity|lia|lia|lia|reflexivity].
Defined.

(** X18.  For a block size below 2^1075 and a buffer of positive dimensions,
    whether or not the block size divides them, the rectangles that the
    extraction loops of both operations crop (entry [g] of
    [original_blocks] and of [scrambled_blocks] is the crop of rectangle
    [g]) are non-empty and lie inside the buffer, those of the last column
    end at [width] and those of the last row at [height] (clipped to the
    remainder when the block size does not divide the dimension), and they
    tile the buffer: every pixel lies in exactly one of them. *)
Theorem blocks_tile_buffer img width height block_size cols rows :
  size img = (width, height) →
  0 < width → 0 < height → 0 < block_size → block_size < 2 ^ 1075 →
  Py.ceil_div width block_size = Ok cols →
  Py.ceil_div height block_size = Ok rows →
  let rect := block_rect width height block_size cols in
  (∀ g, 0 ≤ g < cols * rows →
     original_blocks img block_size cols rows !! Z.to_nat g
       = Some (crop img (rect g)) ∧
     scrambled_blocks img block_size cols rows !! Z.to_nat g
       = Some (crop img (rect g)) ∧
     ∃ x0 y0 x1 y1, rect g = (x0, y0, x1, y1) ∧
       0 ≤ x0 < x1 ∧ x1 ≤ width ∧ 0 ≤ y0 < y1 ∧ y1 ≤ height ∧
       x1 - x0 ≤ block_size ∧ y1 - y0 ≤ block_size ∧
       (g `mod` cols = cols - 1 → x1 = width) ∧
       (g / cols = rows - 1 → y1 = height) ∧
       (g `mod` cols = cols - 1 → width `mod` block_size ≠ 0 →
          x1 - x0 = width `mod` block_size) ∧
       (g / cols = rows - 1 → height `mod` block_size ≠ 0 →
          y1 - y0 = height `mod` block_size)) ∧
  (∀ x y, 0 ≤ x < width → 0 ≤ y < height →
     ∃ g, 0 ≤ g < cols * rows ∧ in_box (rect g) x y = true ∧
       ∀ g', 0 ≤ g' < cols * rows → in_box (rect g') x y = true → g' = g).
Proof.
  intros Himg Hw Hh Hb Hsmall Ec Er rect.
  destruct (ceil_div_spec width block_size Hb Hsmall) as (cols' & Ec' & Hc).
  destruct (ceil_div_spec height block_size Hb Hsmall) as (rows' & Er' & Hr).
  assert (cols' = cols) as -> by congruence.
  assert (rows' = rows) as -> by congruence.
  assert (0 < cols) as Hcp by nia.
  split.
  - intros g Hg.
    split; [rewrite original_blocks_lookup by lia; by rewrite Himg|].
    split; [rewrite scrambled_blocks_original, original_blocks_lookup by lia;
            by rewrite Himg|].
    destruct (rect_bounds width height block_size cols rows Hw Hh Hb Hc Hr g Hg)
      as (x0 & y0 & x1 & y1 & Hrect & Hx0 & Hy0 & Hx & Hx1 & Hy & Hy1 & Hbw & Hbh).
    exists x0, y0, x1, y1. split; [done|].
    assert (x1 = Z.min ((g `mod` cols + 1) * block_size) width ∧
            y1 = Z.min ((g / cols + 1) * block_size) height) as [Ex1 Ey1].
    { unfold rect, block_rect, block_box in Hrect. by simplify_eq. }
    pose proof (Z.div_mod width block_size ltac:(lia)) as Hdw.
    pose proof (Z.mod_pos_bound width block_size Hb) as Hmw.
    pose proof (Z.div_mod height block_size ltac:(lia)) as Hdh.
    pose proof (Z.mod_pos_bound height block_size Hb) as Hmh.
    repeat split; try lia.
    + intros Hlast Hrag. rewrite Hlast in *.
      assert (width / block_size = cols - 1) by nia. nia.
    + intros Hlast Hrag. rewrite Hlast in *.
      assert (height / block_size = rows - 1) by nia. nia.
  - intros x y Hx Hy. exists (block_of block_size cols x y). split; [|split].
    + by apply (block_of_range width height block_size cols rows).
    + by apply (block_of_covers width height block_size cols rows).
    + intros g' _ Hin.
      by apply (covering_block_unique width height block_size cols rows).
Qed.

Lemma blocks_tile_buffer_ragged :
  let img := Image_new (65, 65) in
  let rect := block_rect 65 65 32 3 in
  (∀ g, 0 ≤ g < 3 * 3 →
     original_blocks img 32 3 3 !! Z.to_nat g = Some (crop img (rect g)) ∧
     scrambled_blocks img 32 3 3 !! Z.to_nat g = Some (crop img (rect g)) ∧
     ∃ x0 y0 x1 y1, rect g = (x0, y0, x1, y1) ∧
       0 ≤ x0 < x1 ∧ x1 ≤ 65 ∧ 0 ≤ y0 < y1 ∧ y1 ≤ 65 ∧
       x1 - x0 ≤ 32 ∧ y1 - y0 ≤ 32 ∧
       (g `mod` 3 = 3 - 1 → x1 = 65) ∧
       (g / 3 = 3 - 1 → y1 = 65) ∧
       (g `mod` 3 = 3 - 1 → 65 `mod` 32 ≠ 0 → x1 - x0 = 65 `mod` 32) ∧
       (g / 3 = 3 - 1 → 65 `mod` 32 ≠ 0 → y1 - y0 = 65 `mod` 32)) ∧
  (∀ x y, 0 ≤ x < 65 → 0 ≤ y < 65 →
     ∃ g, 0 ≤ g < 3 * 3 ∧ in_box (rect g) x y = true ∧
       ∀ g', 0 ≤ g' < 3 * 3 → in_box (rect g') x y = true → g' = g).
Proof.
  apply (blocks_tile_buffer (Image_new (65, 65)) 65 65 32 3 3);
    [reflexivity|lia|lia|lia|reflexivity|reflexivity|reflexivity].
Defined.

(** ** Pixels on grids whose block size divides both dimensions *)

(** X1.  On a grid whose block size divides both dimensions, pixel [(x, y)] of
    the scrambled buffer is the pixel at the same offset inside the original
    block that the key assigns to the block of [(x, y)]. *)
Theorem scrambled_pixels_even gen img block_size cols rows :
  1 ≤ block_size →
  (size img).1 = cols * block_size →
  (size img).2 = rows * block_size →
  gen (Py.range (cols * rows)) ≡ₚ Py.range (cols * rows) →
  let permutation := gen (Py.range (cols * rows)) in
  ∃ scrambled,
    scramble_with gen (Some img) block_size = Ok (scrambled, permutation) ∧
    size scrambled = size img ∧
    ∀ x y, 0 ≤ x < (size img).1 → 0 ≤ y < (size img).2 →
      ∃ p, permutation !! Z.to_nat (block_of block_size cols x y) = Some p ∧
           0 ≤ p < cols * rows ∧
           getpixel scrambled x y =
             getpixel img (p `mod` cols * block_size + x `mod` block_size)
                          (p / cols * block_size + y `mod` block_size).
Proof.
  intros Hb Hw Hh Hperm permutation. assert (0 < block_size) as Hbp by lia.
  assert (0 ≤ cols ∧ 0 ≤ rows) as [Hc Hr].
  { unfold size in *. simpl in *. nia. }
  destruct (scrambled_pixel_source gen img block_size cols rows Hbp)
    as (scrambled & Hs & Hsz & Hpx); try done.
  - rewrite Hw. by apply even_ceil_div.
  - rewrite Hh. by apply even_ceil_div.
  - rewrite Hw. lia.
  - rewrite Hh. lia.
  - rewrite Hw, Hh. apply even_shape_preserving; try done.
    intros k Hk. by apply (permutation_of_range_facts _ _ Hperm).
  - exists scrambled. split; [done|]. split; [done|].
    intros x y Hx Hy. destruct (Hpx x y Hx Hy) as (p & Hp & Hpr & _ & _ & Hpix).
    exists p. split; [done|]. split; [done|].
    destruct (block_of_offsets (size img).1 block_size cols x y Hbp Hx)
      as [Hox Hoy]; [lia|].
    by rewrite Hox, Hoy in Hpix.
Qed.

Lemma scrambled_pixels_even_square4 :
  let gen := λ x : list Z, (Random.shuffle x [1; 0; 0]).1 in
  let permutation := gen (Py.range (2 * 2)) in
  ∃ scrambled,
    scramble_with gen (Some square4) 2 = Ok (scrambled, permutation) ∧
    size scrambled = size square4 ∧
    ∀ x y, 0 ≤ x < (size square4).1 → 0 ≤ y < (size square4).2 →
      ∃ p, permutation !! Z.to_nat (block_of 2 2 x y) = Some p ∧
           0 ≤ p < 2 * 2 ∧
           getpixel scrambled x y =
             getpixel square4 (p `mod` 2 * 2 + x `mod` 2)
                              (p / 2 * 2 + y `mod` 2).
Proof.
  apply (scrambled_pixels_even (λ x, (Random.shuffle x [1; 0; 0]).1) square4 2 2 2);
    [lia|reflexivity|reflexivity|compute_done].
Defined.

(** X2.  On a grid whose block size divides both dimensions, with any key
    that is a permutation of the block
    indices (the right one or not), the unscrambler succeeds, and pixel
    [(x, y)] of its output is the pixel at the same offset inside the block
    [k] of its input for which [permutation[k]] is the block of [(x, y)]. *)
Theorem restored_pixels_even (permutation : list Z) img block_size cols rows :
  1 ≤ block_size →
  (size img).1 = cols * block_size →
  (size img).2 = rows * block_size →
  permutation ≡ₚ Py.range (cols * rows) →
  ∃ restored,
    block_unscramble (Some img) (KeyJson permutation) block_size = Ok restored ∧
    size restored = size img ∧
    ∀ x y, 0 ≤ x < (size img).1 → 0 ≤ y < (size img).2 →
      ∃ k, permutation !! Z.to_nat k = Some (block_of block_size cols x y) ∧
           0 ≤ k < cols * rows ∧
           getpixel restored x y =
             getpixel img (k `mod` cols * block_size + x `mod` block_size)
                          (k / cols * block_size + y `mod` block_size).
Proof.
  intros Hb Hw Hh Hperm. assert (0 < block_size) as Hbp by lia.
  assert (0 ≤ cols ∧ 0 ≤ rows) as [Hc Hr].
  { unfold size in *. simpl in *. nia. }
  destruct (restored_pixel_source permutation img block_size cols rows Hbp)
    as (restored & Hu & Hsz & Hpx); try done.
  - rewrite Hw. by apply even_ceil_div.
  - rewrite Hh. by apply even_ceil_div.
  - rewrite Hw. lia.
  - rewrite Hh. lia.
  - rewrite Hw, Hh. apply even_shape_preserving; try done.
    intros k Hk. by apply (permutation_of_range_facts _ _ Hperm).
  - exists restored. split; [done|]. split; [done|].
    intros x y Hx Hy. destruct (Hpx x y Hx Hy) as (k & Hk & Hkr & _ & _ & Hpix).
    exists k. split; [done|]. split; [done|].
    destruct (block_of_offsets (size img).1 block_size cols x y Hbp Hx)
      as [Hox Hoy]; [lia|].
    by rewrite Hox, Hoy in Hpix.
Qed.

Lemma restored_pixels_even_square4 :
  ∃ restored,
    block_unscramble (Some square4) (KeyJson [3; 2; 0; 1]) 2 = Ok restored ∧
    size restored = size square4 ∧
    ∀ x y, 0 ≤ x < (size square4).1 → 0 ≤ y < (size square4).2 →
      ∃ k, [3; 2; 0; 1] !! Z.to_nat k = Some (block_of 2 2 x y) ∧
           0 ≤ k < 2 * 2 ∧
           getpixel restored x y =
             getpixel square4 (k `mod` 2 * 2 + x `mod` 2)
                              (k / 2 * 2 + y `mod` 2).
Proof.
  apply (restored_pixels_even [3; 2; 0; 1] square4 2 2 2);
    [lia|reflexivity|reflexivity|compute_done].
Defined.

(** ** Keys that keep shapes, on any grid *)

(** X3.  Whatever the grid, ragged or not, for a block size below 2^1075:
    when the key drawn by the shuffle only exchanges blocks whose rectangles
    have the same shape, scrambling and then unscrambling returns the
    original buffer pixel for pixel. *)
Theorem roundtrip_same_shape_key img block_size cols rows s :
  0 < block_size → block_size < 2 ^ 1075 →
  Py.ceil_div (size img).1 block_size = Ok cols →
  Py.ceil_div (size img).2 block_size = Ok rows →
  shape_preserving (size img).1 (size img).2 block_size cols rows
                   (Random.shuffle (Py.range (cols * rows)) s).1 →
  ∃ restored,
    roundtrip img block_size s = Ok restored ∧
    img_eq restored img ∧
    to_rows restored = to_rows img.
Proof.
  intros Hb Hsmall Ec Er Hshape.
  pose proof (shuffle_permutation (Py.range (cols * rows)) s) as Hperm.
  destruct (grid_exact img block_size cols rows Hb Hsmall Ec Er) as [Hc Hr].
  destruct (roundtrip_shape_preserving (λ x, (Random.shuffle x s).1)
              img block_size cols rows Hb Ec Er Hc Hr Hperm Hshape)
    as (scrambled & restored & Hs & _ & Hu & Heq).
  exists restored. split; [|split; [done|by apply img_eq_rows]].
  unfold roundtrip, block_scramble. rewrite Hs. exact Hu.
Qed.

(** On a 5 x 1 buffer with block size 2 the blocks have widths 2, 2 and 1;
    the draws below exchange the two wide blocks and leave the narrow one. *)
Lemma roundtrip_same_shape_key_strip5 :
  (Random.shuffle (Py.range (3 * 1)) [2; 0]).1 = [1; 0; 2] ∧
  ∃ restored,
    roundtrip strip5 2 [2; 0] = Ok restored ∧
    img_eq restored strip5 ∧
    to_rows restored = to_rows strip5.
Proof.
  split; [reflexivity|].
  apply (roundtrip_same_shape_key strip5 2 3 1 [2; 0]);
    [lia|reflexivity|reflexivity|reflexivity|].
  intros g p Hg Hp.
  assert (g = 0 ∨ g = 1 ∨ g = 2) as [-> | [-> | ->]] by lia;
    vm_compute in Hp; injection Hp as <-; split; reflexivity.
Defined.

(** ** The identity key and single-block buffers *)

Lemma range_shape_preserving width height block_size cols rows :
  shape_preserving width height block_size cols rows (Py.range (cols * rows)).
Proof.
  intros g p Hg Hp. rewrite range_lookup in Hp by done. by simplify_eq.
Qed.

Lemma unscramble_identity img block_size cols rows :
  0 < block_size →
  Py.ceil_div (size img).1 block_size = Ok cols →
  Py.ceil_div (size img).2 block_size = Ok rows →
  (cols - 1) * block_size < (size img).1 ≤ cols * block_size →
  (rows - 1) * block_size < (size img).2 ≤ rows * block_size →
  ∃ restored,
    block_unscramble (Some img) (KeyJson (Py.range (cols * rows))) block_size
      = Ok restored ∧
    img_eq restored img.
Proof.
  intros Hb Ec Er Hc Hr.
  destruct (restored_pixel_source (Py.range (cols * rows)) img block_size
              cols rows Hb Ec Er Hc Hr) as (restored & Hu & Hsz & Hpx);
    [done|apply range_shape_preserving|].
  exists restored. split; [done|]. split; [done|].
  intros x y Hin. apply in_bounds_iff in Hin. rewrite Hsz in Hin.
  destruct Hin as [Hx Hy].
  destruct (Hpx x y Hx Hy) as (k & Hk & Hkr & _ & _ & ->).
  rewrite range_lookup in Hk by done. simplify_eq. f_equal; lia.
Qed.

Lemma scramble_identity gen img block_size cols rows :
  0 < block_size →
  Py.ceil_div (size img).1 block_size = Ok cols →
  Py.ceil_div (size img).2 block_size = Ok rows →
  (cols - 1) * block_size < (size img).1 ≤ cols * block_size →
  (rows - 1) * block_size < (size img).2 ≤ rows * block_size →
  gen (Py.range (cols * rows)) = Py.range (cols * rows) →
  ∃ scrambled,
    scramble_with gen (Some img) block_size
      = Ok (scrambled, Py.range (cols * rows)) ∧
    img_eq scrambled img.
Proof.
  intros Hb Ec Er Hc Hr Hgen.
  destruct (scrambled_pixel_source gen img block_size cols rows Hb Ec Er Hc Hr)
    as (scrambled & Hs & Hsz & Hpx).
  { by rewrite Hgen. }
  { rewrite Hgen. apply range_shape_preserving. }
  rewrite Hgen in Hs, Hpx.
  exists scrambled. split; [done|]. split; [done|].
  intros x y Hin. apply in_bounds_iff in Hin. rewrite Hsz in Hin.
  destruct Hin as [Hx Hy].
  destruct (Hpx x y Hx Hy) as (p & Hp & Hpr & _ & _ & ->).
  assert (0 ≤ block_of block_size cols x y < cols * rows) as Hg.
  { apply (block_of_range (size img).1 (size img).2 block_size cols rows);
      try done; lia. }
  rewrite range_lookup in Hp by done. simplify_eq. f_equal; lia.
Qed.

(** X4.  With the identity key [[0, 1, ..., n - 1]] and a block size below
    2^1075 both operations return the buffer they were given, pixel for
    pixel, on any grid, ragged or not: the unscrambler whenever it is handed
    that key, the scrambler whenever the shuffle leaves the order as it
    was. *)
Theorem identity_key_changes_nothing gen img block_size cols rows :
  0 < block_size → block_size < 2 ^ 1075 →
  Py.ceil_div (size img).1 block_size = Ok cols →
  Py.ceil_div (size img).2 block_size = Ok rows →
  gen (Py.range (cols * rows)) = Py.range (cols * rows) →
  (∃ scrambled,
     scramble_with gen (Some img) block_size
       = Ok (scrambled, Py.range (cols * rows)) ∧
     img_eq scrambled img) ∧
  (∃ restored,
     block_unscramble (Some img) (KeyJson (Py.range (cols * rows))) block_size
       = Ok restored ∧
     img_eq restored img).
Proof.
  intros Hb Hsmall Ec Er Hgen.
  destruct (grid_exact img block_size cols rows Hb Hsmall Ec Er) as [Hc Hr].
  split.
  - by apply scramble_identity.
  - by apply unscramble_identity.
Qed.

Lemma identity_key_changes_nothing_strip3 :
  let gen := λ x : list Z, (Random.shuffle x [1]).1 in
  (∃ scrambled,
     scramble_with gen (Some strip3) 2 = Ok (scrambled, Py.range (2 * 1)) ∧
     img_eq scrambled strip3) ∧
  (∃ restored,
     block_unscramble (Some strip3) (KeyJson (Py.range (2 * 1))) 2
       = Ok restored ∧
     img_eq restored strip3).
Proof.
  apply (identity_key_changes_nothing (λ x, (Random.shuffle x [1]).1) strip3 2 2 1);
    [lia|reflexivity|reflexivity|reflexivity|reflexivity].
Defined.

(** X5.  A buffer no larger than one block, the block size being below
    2^1075: whatever the random state, the key is [[0]], the scrambled buffer
    equals the input, and so does the buffer unscrambled from it. *)
Theorem single_block_untouched img block_size s :
  0 < (size img).1 ≤ block_size → 0 < (size img).2 ≤ block_size →
  block_size < 2 ^ 1075 →
  ∃ scrambled restored,
    block_scramble (Some img) block_size s = Ok (scrambled, [0]) ∧
    img_eq scrambled img ∧
    block_unscramble (Some scrambled) (KeyJson [0]) block_size = Ok restored ∧
    img_eq restored img.
Proof.
  intros Hw Hh Hsmall. assert (0 < block_size) as Hb by lia.
  assert (∀ a, 0 < a ≤ block_size → Py.ceil_div a block_size = Ok 1) as Hceil.
  { intros a Ha.
    destruct (ceil_div_spec a block_size Hb Hsmall) as (c & -> & Hc).
    f_equal. nia. }
  destruct (scramble_identity (λ x, (Random.shuffle x s).1) img block_size 1 1 Hb)
    as (scrambled & Hs & Heq); auto; try lia.
  destruct Heq as [Hsz Hpx].
  destruct (unscramble_identity scrambled block_size 1 1 Hb)
    as (restored & Hu & [Hsz' Hpx']); [rewrite Hsz; auto; lia..|].
  exists scrambled, restored. split; [exact Hs|]. split; [done|].
  split; [exact Hu|]. split; [congruence|].
  intros x y Hin. rewrite Hpx' by done. apply Hpx.
  apply in_bounds_iff. apply in_bounds_iff in Hin. by rewrite <- Hsz'.
Qed.

Lemma single_block_untouched_strip3 :
  ∃ scrambled restored,
    block_scramble (Some strip3) 32 [5; 7] = Ok (scrambled, [0]) ∧
    img_eq scrambled strip3 ∧
    block_unscramble (Some scrambled) (KeyJson [0]) 32 = Ok restored ∧
    img_eq restored strip3.
Proof.
  apply (single_block_untouched strip3 32 [5; 7]); vm_compute; split; congruence.
Defined.

(** ** Negative block sizes *)

Lemma negative_block_size_grid (img : image) block_size :
  block_size < 0 →
  ∃ cols rows,
    Py.ceil_div (size img).1 block_size = Ok cols ∧
    Py.ceil_div (size img).2 block_size = Ok rows ∧
    cols ≤ 0 ∧ rows ≤ 0.
Proof.
  intros Hb.
  destruct (ceil_div_neg (size img).1 block_size Hb) as (cols & Ec & Hc);
    [unfold size; simpl; lia|].
  destruct (ceil_div_neg (size img).2 block_size Hb) as (rows & Er & Hr);
    [unfold size; simpl; lia|].
  by exists cols, rows.
Qed.

(** X6.  With a negative block size neither operation reports an error for it:
    the grid is empty, so the scrambler saves an all-black buffer of the
    input's dimensions together with the empty key, and the unscrambler
    accepts exactly the empty key and also returns an all-black buffer. *)
Theorem negative_block_size_blanks img block_size s :
  block_size < 0 →
  block_scramble (Some img) block_size s = Ok (Image_new (size img), []) ∧
  block_unscramble (Some img) (KeyJson []) block_size
    = Ok (Image_new (size img)) ∧
  ∀ permutation, permutation ≠ [] →
    block_unscramble (Some img) (KeyJson permutation) block_size
      = Err KeySizeMismatch.
Proof.
  intros Hb.
  destruct (negative_block_size_grid img block_size Hb)
    as (cols & rows & Ec & Er & Hc & Hr).
  split; [|split].
  - unfold block_scramble.
    rewrite (scramble_with_eq _ img block_size cols rows Ec Er). cbv zeta.
    rewrite original_blocks_empty, grid_positions_empty by lia. done.
  - rewrite (block_unscramble_eq img [] block_size cols rows Ec Er). cbv zeta.
    rewrite scrambled_blocks_original, original_blocks_empty by lia.
    unfold unscramble_composite. rewrite grid_positions_empty by lia. done.
  - intros permutation Hne.
    rewrite (block_unscramble_eq img permutation block_size cols rows Ec Er).
    cbv zeta. rewrite scrambled_blocks_original, original_blocks_empty by lia.
    destruct permutation; done.
Qed.

Lemma negative_block_size_blanks_strip3 :
  block_scramble (Some strip3) (-2) [4] = Ok (Image_new (size strip3), []) ∧
  block_unscramble (Some strip3) (KeyJson []) (-2)
    = Ok (Image_new (size strip3)) ∧
  ∀ permutation, permutation ≠ [] →
    block_unscramble (Some strip3) (KeyJson permutation) (-2)
      = Err KeySizeMismatch.
Proof. apply (negative_block_size_blanks strip3 (-2) [4]). lia. Defined.

(** ** Unscramble, then scramble *)

Lemma block_of_shifted block_size cols p ox oy :
  0 < block_size → 0 < cols → 0 ≤ ox < block_size → 0 ≤ oy < block_size →
  block_of block_size cols (p `mod` cols * block_size + ox)
                           (p / cols * block_size + oy) = p.
Proof.
  intros Hb Hc Hox Hoy. unfold block_of.
  rewrite <- (Z.div_unique (p `mod` cols * block_size + ox) block_size
                (p `mod` cols) ox) by lia.
  rewrite <- (Z.div_unique (p / cols * block_size + oy) block_size
                (p / cols) oy) by lia.
  by apply div_mod_row_major.
Qed.

(** X16.  The two operations are inverse in the other order too.  When the block
    size divides both dimensions, unscrambling a buffer with any permutation
    of the block indices and scrambling the result with that same
    permutation gives the buffer back pixel for pixel. *)
Theorem unscramble_then_scramble_even (permutation : list Z) img
    block_size cols rows :
  1 ≤ block_size →
  (size img).1 = cols * block_size →
  (size img).2 = rows * block_size →
  permutation ≡ₚ Py.range (cols * rows) →
  ∃ restored scrambled,
    block_unscramble (Some img) (KeyJson permutation) block_size = Ok restored ∧
    scramble_with (λ _, permutation) (Some restored) block_size
      = Ok (scrambled, permutation) ∧
    img_eq scrambled img.
Proof.
  intros Hb Hw Hh Hperm. assert (0 < block_size) as Hbp by lia.
  assert (0 ≤ cols ∧ 0 ≤ rows) as [Hc Hr].
  { unfold size in *. simpl in *. nia. }
  assert (shape_preserving (size img).1 (size img).2 block_size cols rows
                           permutation) as Hshape.
  { rewrite Hw, Hh. apply even_shape_preserving; try done.
    intros k Hk. by apply (permutation_of_range_facts _ _ Hperm). }
  assert (Py.ceil_div (size img).1 block_size = Ok cols) as Ec
    by (rewrite Hw; by apply even_ceil_div).
  assert (Py.ceil_div (size img).2 block_size = Ok rows) as Er
    by (rewrite Hh; by apply even_ceil_div).
  assert ((cols - 1) * block_size < (size img).1 ≤ cols * block_size) as Hcb
    by (rewrite Hw; lia).
  assert ((rows - 1) * block_size < (size img).2 ≤ rows * block_size) as Hrb
    by (rewrite Hh; lia).
  destruct (restored_pixel_source permutation img block_size cols rows
              Hbp Ec Er Hcb Hrb Hperm Hshape) as (restored & Hu & Hsz & Hpr).
  destruct (scrambled_pixel_source (λ _, permutation) restored block_size
              cols rows Hbp) as (scrambled & Hs & Hsz' & Hps);
    rewrite ?Hsz; try done.
  rewrite Hsz in Hps.
  exists restored, scrambled. split; [done|]. split; [done|].
  split; [congruence|].
  intros x y Hin. apply in_bounds_iff in Hin. rewrite Hsz', Hsz in Hin.
  destruct Hin as [Hx Hy].
  assert (0 < cols) as Hcp by nia.
  destruct (Hps x y Hx Hy) as (p & Hp & Hprange & Hx' & Hy' & ->).
  destruct (block_of_offsets (size img).1 block_size cols x y Hbp Hx)
    as [Hox Hoy]; [lia|].
  rewrite Hox, Hoy in *.
  pose proof (Z.mod_pos_bound x block_size Hbp) as Hmx.
  pose proof (Z.mod_pos_bound y block_size Hbp) as Hmy.
  destruct (Hpr _ _ Hx' Hy') as (k & Hk & Hkr & _ & _ & ->).
  rewrite (block_of_shifted block_size cols p) in * by done.
  destruct (permutation_of_range_facts _ _ Hperm) as (Hnd & _ & _).
  assert (Z.to_nat k = Z.to_nat (block_of block_size cols x y)) as Hkg
    by (by eapply NoDup_lookup).
  assert (0 ≤ block_of block_size cols x y).
  { unfold block_of.
    assert (0 ≤ x / block_size) by (apply Z.div_pos; lia).
    assert (0 ≤ y / block_size) by (apply Z.div_pos; lia). nia. }
  assert (k = block_of block_size cols x y) as -> by lia.
  f_equal; lia.
Qed.

Lemma unscramble_then_scramble_even_square4 :
  ∃ restored scrambled,
    block_unscramble (Some square4) (KeyJson [3; 2; 0; 1]) 2 = Ok restored ∧
    scramble_with (λ _, [3; 2; 0; 1]) (Some restored) 2
      = Ok (scrambled, [3; 2; 0; 1]) ∧
    img_eq scrambled square4.
Proof.
  apply (unscramble_then_scramble_even [3; 2; 0; 1] square4 2 2 2);
    [lia|reflexivity|reflexivity|compute_done].
Defined.

(** ** Key entries outside [0, BlockCount) *)

Ltac split_comparisons :=
  repeat match goal with
         | |- context [Z.leb ?a ?b] => destruct (Z.leb_spec a b)
         | |- context [Z.ltb ?a ?b] => destruct (Z.ltb_spec a b)
         end;
  simpl; try done; try lia.

Lemma index_wrap n e :
  - n ≤ e → Py.index n (wrap_entry n e) = Py.index n e.
Proof.
  intros He. unfold wrap_entry. destruct (Z.ltb_spec e 0); [|done].
  unfold Py.index. by split_comparisons.
Qed.

Lemma index_outside n e : ¬ (- n ≤ e < n) → Py.index n e = None.
Proof. intros He. unfold Py.index. by split_comparisons. Qed.

Lemma index_inside n e :
  - n ≤ e < n → ∃ k, Py.index n e = Some k ∧ (k < Z.to_nat n)%nat.
Proof.
  intros He. unfold Py.index.
  split_comparisons; eexists; (split; [done|lia]).
Qed.

Lemma get_fmap {A B} (f : A → B) (l : list A) i :
  Py.get (f <$> l) i = (x ← Py.get l i; mret (f x)).
Proof.
  unfold Py.get, Py.len. rewrite length_fmap.
  destruct (Py.index (Z.of_nat (length l)) i) as [k|]; [|done].
  rewrite list_lookup_fmap. by destruct (l !! k).
Qed.

Lemma get_elem_of {A} (l : list A) i x : Py.get l i = Ok x → x ∈ l.
Proof.
  unfold Py.get. destruct (Py.index (Py.len l) i) as [k|]; [|done].
  destruct (l !! k) as [y|] eqn:E; [|done]. intros [= <-].
  by eapply list_elem_of_lookup_2.
Qed.

(** The reconstruction loop either has stored every entry so far, all of
    them designating a slot, or has raised IndexError at an entry that
    designates none. *)
Lemma reconstruct_outcome (permutation : list Z) (blocks : list image) t :
  length permutation = length blocks → (t ≤ length permutation)%nat →
  let n := Py.len blocks in
  let run :=
    foldl (reconstruct_step permutation blocks)
          (Ok (replicate (length blocks) None)) (Py.range (Z.of_nat t)) in
  (∃ ordered, run = Ok ordered ∧ length ordered = length blocks ∧
     ∀ k e, (k < t)%nat → permutation !! k = Some e → - n ≤ e < n) ∨
  (run = Err (Unexpected IndexError) ∧
   ∃ k e, (k < t)%nat ∧ permutation !! k = Some e ∧ ¬ (- n ≤ e < n)).
Proof.
  intros Hlen. induction t as [|t IH]; intros Ht n run.
  { left. exists (replicate (length blocks) None).
    split; [done|]. split; [by rewrite length_replicate|]. intros k e Hk. lia. }
  subst run. rewrite range_snoc, foldl_snoc.
  destruct IH as [(acc & -> & Hacc & Hgood)|(-> & k & e & Hk & He & Hbad)]; [lia| |].
  - destruct (lookup_lt_is_Some_2 permutation t) as [e He]; [lia|].
    destruct (lookup_lt_is_Some_2 blocks t) as [blk Hblk]; [lia|].
    unfold reconstruct_step. simpl.
    rewrite (get_lookup permutation (Z.of_nat t) e)
      by (lia || by rewrite Nat2Z.id). simpl.
    rewrite (get_lookup blocks (Z.of_nat t) blk)
      by (lia || by rewrite Nat2Z.id). simpl.
    unfold Py.set. replace (Py.len acc) with n by (unfold n, Py.len; lia).
    destruct (decide (- n ≤ e < n)) as [Hin|Hout].
    + left. destruct (index_inside n e Hin) as (i & -> & _).
      eexists. split; [done|]. split; [by rewrite length_insert|].
      intros k e' Hk Hk'. destruct (decide (k = t)) as [->|].
      * by simplify_eq.
      * apply (Hgood k); [lia|done].
    + right. rewrite (index_outside n e Hout). split; [done|].
      exists t, e. split; [lia|done].
  - right. split; [done|]. exists k, e. split; [lia|done].
Qed.

(** X7.  A key of the right length with an entry outside [-BlockCount,
    BlockCount) makes the list assignment of the reconstruction loop raise
    IndexError, which the generic handler reports; nothing is saved. *)
Theorem key_entry_out_of_range img (permutation : list Z) block_size cols rows e :
  0 < block_size →
  Py.ceil_div (size img).1 block_size = Ok cols →
  Py.ceil_div (size img).2 block_size = Ok rows →
  Py.len permutation = cols * rows →
  e ∈ permutation → ¬ (- (cols * rows) ≤ e < cols * rows) →
  block_unscramble (Some img) (KeyJson permutation) block_size
    = Err (Unexpected IndexError).
Proof.
  intros Hb Ec Er Hlen He Hout.
  destruct (grid_nonneg img block_size cols rows Hb Ec Er) as [Hc Hr].
  rewrite (block_unscramble_checked img permutation block_size cols rows)
    by done.
  rewrite scrambled_blocks_original.
  pose proof (original_blocks_length img block_size cols rows Hc Hr) as Hn.
  set (blocks := original_blocks img block_size cols rows) in *.
  assert (length permutation = length blocks) as Hl
    by (unfold Py.len in *; lia).
  destruct (reconstruct_outcome permutation blocks (length permutation) Hl)
    as [(ordered & _ & _ & Hgood)|(Hrun & _)]; [lia| |].
  - exfalso. apply list_elem_of_lookup in He as [k Hk]. apply Hout.
    rewrite <- Hn. apply (Hgood k e); [by eapply lookup_lt_Some|done].
  - unfold reconstruct, Py.len. by rewrite Hrun.
Qed.

Lemma key_entry_out_of_range_square4 :
  block_unscramble (Some square4) (KeyJson [0; 1; 4; 2]) 2
    = Err (Unexpected IndexError).
Proof.
  apply (key_entry_out_of_range square4 [0; 1; 4; 2] 2 2 2 4);
    [lia|reflexivity|reflexivity|reflexivity| |lia].
  apply (list_elem_of_lookup_2 _ 2%nat). reflexivity.
Defined.

Lemma reconstruct_wrap (permutation : list Z) (blocks : list image) ks acc :
  (∀ e, e ∈ permutation → - Py.len blocks ≤ e) →
  (∀ a, acc = Ok a → length a = length blocks) →
  foldl (reconstruct_step (wrap_entry (Py.len blocks) <$> permutation) blocks)
        acc ks
  = foldl (reconstruct_step permutation blocks) acc ks.
Proof.
  intros Hlow. revert acc. induction ks as [|k ks IH]; intros acc Hacc; [done|].
  simpl.
  assert (reconstruct_step (wrap_entry (Py.len blocks) <$> permutation)
            blocks acc k
          = reconstruct_step permutation blocks acc k) as ->.
  { destruct acc as [a|err]; [|done]. unfold reconstruct_step. simpl.
    rewrite get_fmap. destruct (Py.get permutation k) as [e|err] eqn:Ee; [|done].
    simpl. destruct (Py.get blocks k) as [blk|err]; [|done]. simpl.
    unfold Py.set. replace (Py.len a) with (Py.len blocks)
      by (unfold Py.len; rewrite (Hacc a); done).
    rewrite index_wrap; [done|]. apply Hlow. by eapply get_elem_of. }
  apply IH. intros a' Ha'.
  destruct acc as [a|err]; [|done]. unfold reconstruct_step in Ha'. simpl in Ha'.
  destruct (Py.get permutation k) as [e|err]; [|done]. simpl in Ha'.
  destruct (Py.get blocks k) as [blk|err]; [|done]. simpl in Ha'.
  unfold Py.set in Ha'.
  destruct (Py.index (Py.len a) e) as [i|]; [|done].
  injection Ha' as <-. rewrite length_insert. by apply Hacc.
Qed.

(** X8.  A negative key entry counts from the end, as Python list indices do: a
    key whose entries are all at least [-BlockCount] gives the same outcome
    as the key in which every negative entry [e] is replaced by
    [BlockCount + e]. *)
Theorem negative_entries_count_from_end img (permutation : list Z)
    block_size cols rows :
  0 < block_size →
  Py.ceil_div (size img).1 block_size = Ok cols →
  Py.ceil_div (size img).2 block_size = Ok rows →
  (∀ e, e ∈ permutation → - (cols * rows) ≤ e) →
  block_unscramble (Some img)
                   (KeyJson (wrap_entry (cols * rows) <$> permutation))
                   block_size
  = block_unscramble (Some img) (KeyJson permutation) block_size.
Proof.
  intros Hb Ec Er Hlow.
  destruct (grid_nonneg img block_size cols rows Hb Ec Er) as [Hc Hr].
  rewrite !(block_unscramble_eq img _ block_size cols rows Ec Er). cbv zeta.
  rewrite scrambled_blocks_original.
  pose proof (original_blocks_length img block_size cols rows Hc Hr) as Hn.
  set (blocks := original_blocks img block_size cols rows) in *.
  unfold Py.len at 1. rewrite length_fmap. fold (Py.len permutation).
  destruct (negb (Py.len permutation =? Py.len blocks)); [done|].
  unfold reconstruct. unfold Py.len at 1. rewrite length_fmap.
  fold (Py.len permutation). rewrite <- Hn.
  rewrite reconstruct_wrap; [done| |].
  - intros e He. rewrite Hn. by apply Hlow.
  - intros a [= <-]. by rewrite length_replicate.
Qed.

Lemma negative_entries_count_from_end_square4 :
  wrap_entry (2 * 2) <$> [-1; -2; 0; 1] = [3; 2; 0; 1] ∧
  block_unscramble (Some square4)
                   (KeyJson (wrap_entry (2 * 2) <$> [-1; -2; 0; 1])) 2
  = block_unscramble (Some square4) (KeyJson [-1; -2; 0; 1]) 2.
Proof.
  split; [reflexivity|].
  apply (negative_entries_count_from_end square4 [-1; -2; 0; 1] 2 2 2);
    [lia|reflexivity|reflexivity|].
  intros e He. repeat (apply elem_of_cons in He as [->|He]; [lia|]).
  by apply elem_of_nil in He.
Defined.

(** ** The block-size prompt *)

(** X9.  The prompt settles on the first answer that is blank (keeping the
    default) or a positive number, having turned down every answer before
    it; it is still asking exactly when every answer so far was turned
    down. *)
Theorem read_block_size_spec default answers :
  (∀ chosen,
     read_block_size default answers = Some chosen ↔
     ∃ skipped rest,
       Forall rejected skipped ∧
       ((answers = skipped ++ Blank :: rest ∧ chosen = default) ∨
        (answers = skipped ++ Number chosen :: rest ∧ 0 < chosen))) ∧
  (read_block_size default answers = None ↔ Forall rejected answers).
Proof.
  induction answers as [|a answers [IHsome IHnone]].
  { split.
    - intros chosen. split; [done|].
      intros (skipped & rest & _ & [[H _]|[H _]]); by destruct skipped.
    - done. }
  assert (∀ chosen,
            (∃ skipped rest, Forall rejected skipped ∧
               ((answers = skipped ++ Blank :: rest ∧ chosen = default) ∨
                (answers = skipped ++ Number chosen :: rest ∧ 0 < chosen))) →
            rejected a →
            ∃ skipped rest, Forall rejected skipped ∧
              ((a :: answers = skipped ++ Blank :: rest ∧ chosen = default) ∨
               (a :: answers = skipped ++ Number chosen :: rest ∧ 0 < chosen)))
    as Hcons.
  { intros chosen (skipped & rest & Hsk & H) Ha.
    exists (a :: skipped), rest. split; [by constructor|].
    destruct H as [[-> ->]|[-> ?]]; [by left|by right]. }
  assert (∀ chosen,
            (∃ skipped rest, Forall rejected skipped ∧
               ((a :: answers = skipped ++ Blank :: rest ∧ chosen = default) ∨
                (a :: answers = skipped ++ Number chosen :: rest ∧ 0 < chosen))) →
            rejected a →
            ∃ skipped rest, Forall rejected skipped ∧
              ((answers = skipped ++ Blank :: rest ∧ chosen = default) ∨
               (answers = skipped ++ Number chosen :: rest ∧ 0 < chosen)))
    as Huncons.
  { intros chosen (skipped & rest & Hsk & H) Ha.
    destruct skipped as [|a' skipped].
    - exfalso. destruct H as [[H _]|[H Hpos]]; simpl in H; simplify_eq;
        simpl in Ha; [done|lia].
    - apply list.Forall_cons in Hsk as [_ Hsk]. exists skipped, rest.
      split; [done|].
      destruct H as [[H ->]|[H ?]]; simpl in H; simplify_eq; [by left|by right]. }
  split.
  - intros chosen. destruct a as [| |n]; simpl.
    + split.
      * intros [= <-]. exists [], answers. split; [constructor|]. by left.
      * intros (skipped & rest & Hsk & H).
        destruct skipped as [|a' skipped].
        -- destruct H as [[_ ->]|[H _]]; [done|]. simpl in H. simplify_eq.
        -- apply list.Forall_cons in Hsk as [Hrej _].
           destruct H as [[H _]|[H _]]; simpl in H; simplify_eq; done.
    + rewrite IHsome. split; [intros H; by apply Hcons|intros H; by apply Huncons].
    + destruct (n <=? 0) eqn:E.
      * rewrite IHsome. split;
          [intros H; apply Hcons; [done|simpl; lia]
          |intros H; apply Huncons; [done|simpl; lia]].
      * split.
        -- intros [= <-]. exists [], answers. split; [constructor|].
           right. split; [done|lia].
        -- intros (skipped & rest & Hsk & H).
           destruct skipped as [|a' skipped].
           ++ destruct H as [[H _]|[H _]]; simpl in H; by simplify_eq.
           ++ apply list.Forall_cons in Hsk as [Hrej _].
              destruct H as [[H _]|[H _]]; simpl in H; simplify_eq;
                simpl in Hrej; lia.
  - destruct a as [| |n]; simpl.
    + split; [done|]. intros H. by apply list.Forall_cons in H as [? _].
    + rewrite IHnone. split; [by constructor|].
      intros H. by apply list.Forall_cons in H as [_ ?].
    + destruct (n <=? 0) eqn:E.
      * rewrite IHnone. split; [constructor; [simpl; lia|done]|].
        intros H. by apply list.Forall_cons in H as [_ ?].
      * split; [done|]. intros H. apply list.Forall_cons in H as [H _].
        simpl in H. lia.
Qed.

(** * The operations on the file system *)

Lemma string_length_app (a b : string) :
  String.length (a +:+ b) = (String.length a + String.length b)%nat.
Proof.
  induction a as [|c a IH]; [done|].
  change (String c a +:+ b) with (String c (a +:+ b)). simpl. by rewrite IH.
Qed.

Lemma key_path_differs (p : string) : p +:+ ".key.json" ≠ p.
Proof.
  intros H. apply (f_equal String.length) in H.
  rewrite string_length_app in H. simpl in H. lia.
Qed.

Lemma key_path_nonempty (p : string) : p +:+ ".key.json" ≠ "".
Proof.
  intros H. apply (f_equal String.length) in H.
  rewrite string_length_app in H. simpl in H. lia.
Qed.



Section Files.

Variable saved_as : string → image → option image.

(** X12.  Round trip through the file system.  When the block size divides both
    dimensions and both output paths name a lossless format, scrambling a
    file and then unscrambling the result, with no key path, an empty one
    or the path of the key file written, stores at the last output path an
    image equal to the original pixel for pixel: the key is found where the
    scrambler put it. *)
Theorem files_roundtrip fs image_path output_path restored_path img
    block_size cols rows s key_path :
  fs !! image_path = Some (ImageFile img) →
  1 ≤ block_size →
  (size img).1 = cols * block_size →
  (size img).2 = rows * block_size →
  (∀ im, saved_as output_path im = Some im) →
  (∀ im, saved_as restored_path im = Some im) →
  key_path = None ∨ key_path = Some "" ∨
    key_path = Some (output_path +:+ ".key.json") →
  let scrambled :=
    block_scramble_files saved_as fs image_path output_path block_size s in
  let unscrambled :=
    block_unscramble_files saved_as scrambled.1 output_path restored_path
                           block_size key_path in
  scrambled.2 = Saved ∧ unscrambled.2 = Saved ∧
  ∃ restored,
    unscrambled.1 !! restored_path = Some (ImageFile restored) ∧
    img_eq restored img.
Proof.
  intros Hin Hb Hw Hh Hout Hrest Hkey scrambled unscrambled.
  destruct (roundtrip_even_blocks_shuffle img block_size cols rows s Hb Hw Hh)
    as (restored & Hrt & Heq).
  unfold roundtrip in Hrt.
  destruct (block_scramble (Some img) block_size s) as [[scr perm]|e] eqn:Es;
    [|done]. simpl in Hrt.
  assert (scrambled =
            (<[output_path +:+ ".key.json":=KeyFile perm]>
               (<[output_path:=ImageFile scr]> fs), Saved)) as Hscr.
  { unfold scrambled, block_scramble_files, block_scramble_on, save.
    by rewrite Hin, Es, Hout. }
  assert (effective_key_path output_path key_path
          = output_path +:+ ".key.json") as Hpath.
  { destruct Hkey as [-> | [-> | ->]]; simpl; try done.
    destruct (decide (output_path +:+ ".key.json" = "")) as [H|]; [|done].
    by apply key_path_nonempty in H. }
  assert (unscrambled =
            (<[restored_path:=ImageFile restored]> scrambled.1, Saved)) as Hun.
  { unfold unscrambled, block_unscramble_files, block_unscramble_on, save.
    fold (effective_key_path output_path key_path). rewrite Hpath, Hscr. simpl.
    rewrite lookup_insert_eq.
    rewrite lookup_insert_ne by apply key_path_differs.
    rewrite lookup_insert_eq. by rewrite Hrt, Hrest. }
  split; [by rewrite Hscr|]. split; [by rewrite Hun|].
  exists restored. split; [|done]. rewrite Hun. simpl. by rewrite lookup_insert_eq.
Qed.

(** X19.  On any platform, success reported is success: when the block size
    divides both dimensions, the formats of both output paths are lossless,
    and both operations print their "saved" messages (the unscrambler run
    on the scrambler's output with no key path, an empty one or the path of
    the key file written), the last output path holds an image equal to the
    original pixel for pixel. *)
Theorem files_roundtrip_when_saved io fs image_path output_path restored_path
    img block_size cols rows s key_path :
  fs !! image_path = Some (ImageFile img) →
  1 ≤ block_size →
  (size img).1 = cols * block_size →
  (size img).2 = rows * block_size →
  (∀ im stored, saved_as output_path im = Some stored → stored = im) →
  (∀ im stored, saved_as restored_path im = Some stored → stored = im) →
  key_path = None ∨ key_path = Some "" ∨
    key_path = Some (output_path +:+ ".key.json") →
  let scrambled :=
    block_scramble_on saved_as io fs image_path output_path block_size s in
  let unscrambled :=
    block_unscramble_on saved_as io scrambled.1 output_path restored_path
                        block_size key_path in
  scrambled.2 = Saved → unscrambled.2 = Saved →
  ∃ restored,
    unscrambled.1 !! restored_path = Some (ImageFile restored) ∧
    img_eq restored img.
Proof.
  intros Hin Hb Hw Hh Hout Hrest Hkey scrambled unscrambled Hs Hu.
  destruct (roundtrip_even_blocks_shuffle img block_size cols rows s Hb Hw Hh)
    as (restored & Hrt & Heq).
  unfold roundtrip in Hrt.
  destruct (block_scramble (Some img) block_size s) as [[scr perm]|e] eqn:Es;
    [|done]. simpl in Hrt.
  assert (scrambled =
            (<[output_path +:+ ".key.json":=KeyFile perm]>
               (<[output_path:=ImageFile scr]> fs), Saved)) as Hscr.
  { revert Hs. unfold scrambled, block_scramble_on, save. rewrite Hin, Es.
    destruct (saved_as output_path scr) as [stored|] eqn:Esave.
    - apply Hout in Esave as ->.
      destruct (open_for_writing io output_path); simpl; try done.
      by destruct (open_for_writing io (output_path +:+ ".key.json")).
    - by destruct (save_failure_at io output_path),
        (open_for_writing io output_path). }
  assert (effective_key_path output_path key_path
          = output_path +:+ ".key.json") as Hpath.
  { destruct Hkey as [-> | [-> | ->]]; simpl; try done.
    destruct (decide (output_path +:+ ".key.json" = "")) as [H|]; [|done].
    by apply key_path_nonempty in H. }
  assert (unscrambled =
            (<[restored_path:=ImageFile restored]> scrambled.1, Saved)) as Hun.
  { revert Hu. unfold unscrambled, block_unscramble_on, save.
    fold (effective_key_path output_path key_path). rewrite Hpath, Hscr. simpl.
    rewrite lookup_insert_eq.
    rewrite lookup_insert_ne by apply key_path_differs.
    rewrite lookup_insert_eq. rewrite Hrt.
    destruct (saved_as restored_path restored) as [stored|] eqn:Esave.
    - apply Hrest in Esave as ->.
      by destruct (open_for_writing io restored_path).
    - by destruct (save_failure_at io restored_path),
        (open_for_writing io restored_path). }
  exists restored. split; [|done]. rewrite Hun. simpl. by rewrite lookup_insert_eq.
Qed.

End Files.

Lemma files_roundtrip_when_saved_square4 :
  let saved_as :=
    λ (p : string) (im : image), if decide (p = "out.xbm") then None else Some im in
  let io :=
    Platform (λ p, if decide (p = "locked.png") then Refused else Opens)
             (λ _, InEncoder) (λ _ _, Some TextFile) in
  let fs : gmap string file := {[ "in.png" := ImageFile square4 ]} in
  let scrambled :=
    block_scramble_on saved_as io fs "in.png" "out.png" 2 [1; 0; 0] in
  let unscrambled :=
    block_unscramble_on saved_as io scrambled.1 "out.png" "back.png" 2 None in
  ∃ restored,
    unscrambled.1 !! "back.png" = Some (ImageFile restored) ∧
    img_eq restored square4.
Proof.
  apply (files_roundtrip_when_saved
           (λ p im, if decide (p = "out.xbm") then None else Some im)
           (Platform (λ p, if decide (p = "locked.png") then Refused else Opens)
                     (λ _, InEncoder) (λ _ _, Some TextFile))
           {[ "in.png" := ImageFile square4 ]}
           "in.png" "out.png" "back.png" square4 2 2 2 [1; 0; 0] None);
    [reflexivity|lia|reflexivity|reflexivity| | |by left
    |reflexivity|reflexivity];
    intros im stored; simpl; intros H; injection H as ->; reflexivity.
Defined.

Lemma files_roundtrip_square4 :
  let saved_as := λ (_ : string) (im : image), Some im in
  let fs : gmap string file := {[ "in.png" := ImageFile square4 ]} in
  let scrambled := block_scramble_files saved_as fs "in.png" "out.png" 2 [1; 0; 0] in
  let unscrambled :=
    block_unscramble_files saved_as scrambled.1 "out.png" "back.png" 2 None in
  scrambled.2 = Saved ∧ unscrambled.2 = Saved ∧
  ∃ restored,
    unscrambled.1 !! "back.png" = Some (ImageFile restored) ∧
    img_eq restored square4.
Proof.
  apply (files_roundtrip (λ _ im, Some im) {[ "in.png" := ImageFile square4 ]}
           "in.png" "out.png" "back.png" square4 2 2 2 [1; 0; 0] None);
    [reflexivity|lia|reflexivity|reflexivity|done|done|by left].
Defined.

(** * The interactive loop *)

Section Main.

Variable strip : string → string.
Variable upper : string → string.
Variable int : string → option Z.
Variable saved_as : string → image → option image.

Local Abbreviation step := (main_step strip upper int saved_as).








Lemma step_choice fs s pr line c :
  upper (strip line) = c → c = "E" ∨ c = "D" →
  step (Shell fs s AskChoice pr) line = Shell fs s (AskInputFile c) pr.
Proof.
  intros <- Hc. unfold main_step, main_step_on. simpl.
  destruct (decide (upper (strip line) = "Q")) as [HQ|_].
  { rewrite HQ in Hc. by destruct Hc. }
  by destruct (decide (upper (strip line) = "E" ∨ upper (strip line) = "D")).
Qed.

Lemma step_size_encrypt fs s pr i o line b :
  read_block_size 32 [classify strip int line] = Some b →
  step (Shell fs s (AskBlockSize "E" i o) pr) line =
  Shell (block_scramble_files saved_as fs i o b s).1
        (generator_after
           match fs !! i with Some (ImageFile img) => Some img | _ => None end
           b s)
        AskChoice
        (pr ++ [(block_scramble_files saved_as fs i o b s).2]).
Proof.
  intros Hb. unfold main_step, main_step_on.
  cbn [waiting disk generator printed]. rewrite Hb.
  destruct (decide ("E" = "E")) as [_|?]; [|done].
  fold (block_scramble_files saved_as).
  by destruct (block_scramble_files saved_as fs i o b s).
Qed.

Lemma step_size_decrypt fs s pr i o line b :
  read_block_size 32 [classify strip int line] = Some b →
  step (Shell fs s (AskBlockSize "D" i o) pr) line =
  Shell fs s (AskKeyFile i o b) pr.
Proof.
  intros Hb. unfold main_step, main_step_on.
  cbn [waiting disk generator printed]. rewrite Hb.
  destruct (decide ("D" = "E")) as [?|_]; [done|].
  by destruct (decide ("D" = "D")).
Qed.

Lemma step_key_default fs s pr i o b line :
  strip line = "" →
  step (Shell fs s (AskKeyFile i o b) pr) line =
  Shell (block_unscramble_files saved_as fs i o b
                                (Some (i +:+ ".key.json"))).1
        s AskChoice
        (pr ++ [(block_unscramble_files saved_as fs i o b
                                        (Some (i +:+ ".key.json"))).2]).
Proof.
  intros Hk. unfold main_step, main_step_on.
  cbn [waiting disk generator printed]. rewrite Hk.
  destruct (decide ("" = "")) as [_|?]; [|done].
  fold (block_unscramble_files saved_as).
  by destruct (block_unscramble_files saved_as fs i o b _).
Qed.

(** X15.  A whole session: an Encrypt turn followed by a Decrypt turn on the file
    just written, with the same block size and an empty answer at the key
    prompt.  When the block size typed divides both dimensions of the image
    and both outputs are stored losslessly, both turns report success, the
    program is back at the choice prompt, and the file written by the
    Decrypt turn holds the original image pixel for pixel. *)
Theorem main_encrypt_then_decrypt fs s img block_size cols rows
    e input_line output_line size_line d restored_line key_line :
  upper (strip e) = "E" → upper (strip d) = "D" →
  strip size_line ≠ "" → int (strip size_line) = Some block_size →
  strip key_line = "" →
  fs !! strip input_line = Some (ImageFile img) →
  1 ≤ block_size →
  (size img).1 = cols * block_size →
  (size img).2 = rows * block_size →
  (∀ p im, saved_as p im = Some im) →
  let σ := main strip upper int saved_as fs s
             [e; input_line; output_line; size_line;
              d; output_line; restored_line; size_line; key_line] in
  waiting σ = AskChoice ∧ printed σ = [Saved; Saved] ∧
  ∃ restored,
    disk σ !! strip restored_line = Some (ImageFile restored) ∧
    img_eq restored img.
Proof.
  intros He Hd Hne Hint Hkey Hin Hb Hw Hh Hsave σ.
  assert (read_block_size 32 [classify strip int size_line] = Some block_size)
    as Hsize.
  { unfold classify. destruct (decide (strip size_line = "")); [done|].
    rewrite Hint. simpl. by destruct (block_size <=? 0) eqn:E; [lia|]. }
  pose proof (files_roundtrip saved_as fs (strip input_line) (strip output_line)
                (strip restored_line) img block_size cols rows s
                (Some (strip output_line +:+ ".key.json"))
                Hin Hb Hw Hh (Hsave _) (Hsave _)) as Hrt.
  destruct Hrt as (Hr1 & Hr2 & restored & Hdisk & Heq); [auto|].
  subst σ. unfold main. cbn [foldl].
  rewrite (step_choice fs s [] e "E") by auto.
  change (step (Shell fs s (AskInputFile "E") []) input_line)
    with (Shell fs s (AskOutputFile "E" (strip input_line)) []).
  change (step (Shell fs s (AskOutputFile "E" (strip input_line)) []) output_line)
    with (Shell fs s (AskBlockSize "E" (strip input_line) (strip output_line)) []).
  rewrite (step_size_encrypt fs s [] _ _ size_line block_size Hsize).
  rewrite Hr1. rewrite (step_choice _ _ _ d "D") by auto.
  match goal with
  | |- context [step (Shell ?f ?g (AskInputFile "D") ?p) output_line] =>
      change (step (Shell f g (AskInputFile "D") p) output_line)
        with (Shell f g (AskOutputFile "D" (strip output_line)) p);
      change (step (Shell f g (AskOutputFile "D" (strip output_line)) p)
                   restored_line)
        with (Shell f g (AskBlockSize "D" (strip output_line)
                                      (strip restored_line)) p)
  end.
  rewrite (step_size_decrypt _ _ _ _ _ size_line block_size Hsize).
  rewrite (step_key_default _ _ _ _ _ _ key_line Hkey).
  simpl. rewrite Hr2. split; [done|]. split; [done|]. by exists restored.
Qed.

End Main.

Lemma main_encrypt_then_decrypt_square4 :
  let int := λ l : string, if decide (l = "2") then Some 2 else None in
  let fs : gmap string file := {[ "in.png" := ImageFile square4 ]} in
  let σ := main id id int (λ _ im, Some im) fs [1; 0; 0]
             ["E"; "in.png"; "out.png"; "2"; "D"; "out.png"; "back.png"; "2"; ""] in
  waiting σ = AskChoice ∧ printed σ = [Saved; Saved] ∧
  ∃ restored,
    disk σ !! "back.png" = Some (ImageFile restored) ∧
    img_eq restored square4.
Proof.
  apply (main_encrypt_then_decrypt id id
           (λ l : string, if decide (l = "2") then Some 2 else None)
           (λ _ im, Some im) {[ "in.png" := ImageFile square4 ]} [1; 0; 0]
           square4 2 2 2 "E" "in.png" "out.png" "2" "D" "back.png" "");
    [reflexivity|reflexivity|done|reflexivity|reflexivity|reflexivity|lia
    |reflexivity|reflexivity|done].
Defined.
